(** * The scroll-and-scrape loop of [IdenChallengeScraper] (p1.py)

    A shallow embedding of the extraction loop of the scraper: the row
    extractor, the duplicate filter, the checkpoint writer and the [run]
    driver, followed by the properties of the loop.

    The browser and the file system are the environment.  What the page
    shows and which calls raise is fixed by a [World]; the files written are
    threaded through the functions as a [Disk]. *)

From Stdlib Require Import DecimalString.
From stdpp Require Import gmap strings list pretty sorting.

#[local] Set Warnings "-clear-no-such-hyp".
#[local] Set Warnings "-level-tolerance".

(** ** Records *)

(** A product is the dict built by [extract_current_page_data]: nine keys,
    each holding [None] or a text.  A key missing from a dict loaded from a
    checkpoint file reads as [None] through [dict.get]. *)
Record Product := mkProduct {
  p_id : option string;
  p_description : option string;
  p_stock : option string;
  p_color : option string;
  p_price : option string;
  p_sku : option string;
  p_manufacturer : option string;
  p_item : option string;
  p_size : option string
}.

Global Instance Product_eq_dec : EqDecision Product.
Proof. solve_decision. Defined.

(** Python truth value of a field: [None] and the empty text are false. *)
Definition truthy (v : option string) : bool :=
  match v with
  | Some s => negb (String.eqb s "")
  | None => false
  end.

(** [product.values()] in key order. *)
Definition values (p : Product) : list (option string) :=
  [p_id p; p_description p; p_stock p; p_color p; p_price p; p_sku p;
   p_manufacturer p; p_item p; p_size p].

(** [any(product.values())] *)
Definition any_values (p : Product) : bool := existsb truthy (values p).

(** The id of a product when it is a non-empty text. *)
Definition id_key (p : Product) : option string :=
  if truthy (p_id p) then p_id p else None.

(** [{p.get('id') for p in products if p.get('id')}] as a list. *)
Definition ids_of (ps : list Product) : list string := omap id_key ps.

(** ** The page *)

(** A [<tr>] as the extractor meets it.  [RowError] is a row on which a
    Playwright call raises; a cell is [None] when [inner_text] raises and
    otherwise holds the text after [strip()]. *)
Inductive Row :=
| RowError
| RowCells (visible : bool) (cells : list (option string)).

(** [text if text else None], and [None] for a cell that raised. *)
Definition cell_value (c : option string) : option string :=
  if truthy c then c else None.

Definition nth_cell (cell_data : list (option string)) (i : nat) : option string :=
  default None (cell_data !! i).

(** The body of the [for i, row in enumerate(rows)] loop: the product the
    row contributes, if any. *)
Definition extract_row (r : Row) : option Product :=
  match r with
  | RowError => None
  | RowCells visible cells =>
      if negb visible then None
      else if 8 <=? length cells then
        let cell_data := cell_value <$> take 9 cells in
        let product :=
          {| p_id := nth_cell cell_data 0;
             p_description := nth_cell cell_data 1;
             p_stock := nth_cell cell_data 2;
             p_color := nth_cell cell_data 3;
             p_price := nth_cell cell_data 4;
             p_sku := nth_cell cell_data 5;
             p_manufacturer := nth_cell cell_data 6;
             p_item := nth_cell cell_data 7;
             p_size := if 8 <? length cell_data
                       then nth_cell cell_data 8 else None |} in
        if truthy (p_id product) || truthy (p_sku product)
        then Some product else None
      else None
  end.

(** [extract_current_page_data]: the snapshot is [None] when waiting for the
    table raises or finds nothing, and the function then returns [[]]. *)
Definition extract_current_page_data (snapshot : option (list Row)) : list Product :=
  match snapshot with
  | None => []
  | Some rows => omap extract_row rows
  end.

(** ** The duplicate filter *)

(** Lines 594-601: the loop over [new_batch] that collects
    [new_unique_products] and grows [_existing_ids_cache]. *)
Fixpoint filterNew (cache : gset string) (batch : list Product)
  : list Product * gset string :=
  match batch with
  | [] => ([], cache)
  | product :: rest =>
      match p_id product with
      | Some product_id =>
          if truthy (Some product_id)
             && negb (bool_decide (product_id ∈ cache))
             && any_values product
          then
            let '(new_unique_products, cache') :=
              filterNew ({[product_id]} ∪ cache) rest in
            (product :: new_unique_products, cache')
          else filterNew cache rest
      | None => filterNew cache rest
      end
  end.

(** The filter as the specification words it: the record at position [i] is
    kept when its id is non-empty, is not in the seen set, does not occur
    earlier in the batch, and the record has a non-empty field. *)
Definition keeps_spec (seen : gset string) (batch : list Product)
    (i : nat) (p : Product) : bool :=
  match p_id p with
  | Some k =>
      negb (String.eqb k "")
      && negb (bool_decide (k ∈ seen))
      && negb (bool_decide (k ∈ ids_of (take i batch)))
      && any_values p
  | None => false
  end.

Definition filterNew_spec (seen : gset string) (batch : list Product) : list Product :=
  omap (λ ip, if keeps_spec seen batch ip.1 ip.2 then Some ip.2 else None)
       (imap pair batch).

(** ** Durable storage *)

Inductive Status := in_progress | completed.

Global Instance Status_eq_dec : EqDecision Status.
Proof. solve_decision. Defined.

(** What a JSON file holds.  [Checkpoint] is the dict written by
    [save_continuous] (status [in_progress], count under [products_count])
    and by [save_final_data] (status [completed], count under
    [total_products]); [Fallback] is the reduced dict of the emergency and
    final-backup writes; [Unreadable] is content from which a reader gets
    nothing: text [json.load] rejects, such as a file cut short by a failed
    write, or a dict without the keys read. *)
Inductive File :=
| Checkpoint (timestamp : Z) (count : nat) (status : Status)
    (products : list Product)
| Fallback (products : list Product)
| Session (timestamp : Z)
| Unreadable.

Global Instance File_eq_dec : EqDecision File.
Proof. solve_decision. Defined.

(** The files, the names written so far (oldest first, one entry for every
    [open(name, 'w')] that succeeded), and the running totals passed to
    [save_continuous] so far (one entry per checkpoint event). *)
Record Disk := mkDisk {
  files : gmap string File;
  written : list string;
  saves : list nat
}.

Definition session_file : string := "session.json".
Definition output_file : string := "product_data.json".
Definition temp_file : string := "temp_products.json".

(** [f"progress_backup_{len(products)}.json"] *)
Definition backup_name (count : nat) : string :=
  "progress_backup_" +:+ pretty count +:+ ".json".

(** [f"emergency_save_{int(time.time())}.json"], the clock in whole seconds *)
Definition emergency_name (t : Z) : string :=
  "emergency_save_" +:+ pretty t +:+ ".json".

(** [f"final_backup_{int(time.time())}.json"] *)
Definition final_backup_name (t : Z) : string :=
  "final_backup_" +:+ pretty t +:+ ".json".

(** ** The environment *)

(** Everything the run reads from outside.  [page k] is the table as the
    [k]-th call of [extract_current_page_data] finds it; [scroll_raises n]
    and [recovery_raises n] say whether the scroll burst, respectively the
    heavier scroll pattern, of attempt [n] raises.  [writable name] says
    whether a write of the file goes through; when it does not,
    [truncates name] says whether it raised after [open(name, 'w')] had
    already emptied the file ([json.dump] raising) or in [open] itself.
    The clock is read as one value for the whole run. *)
Record World := mkWorld {
  now : Z;
  writable : string → bool;
  truncates : string → bool;
  add_cookies_raises : bool;
  resume_answer : bool;
  startup_raises : bool;
  check_authentication : bool;
  authenticate : bool;
  launch_challenge : bool;
  navigate_to_product_table : bool;
  find_scrollable_table_container : bool;
  page : nat → option (list Row);
  scroll_raises : nat → bool;
  recovery_raises : nat → bool
}.

(** [with open(name, 'w') as f: json.dump(data, f)]: [None] when it raises. *)
Definition write_file (w : World) (name : string) (data : File) (d : Disk)
  : option Disk :=
  if writable w name
  then Some {| files := <[name := data]> (files d);
               written := written d ++ [name];
               saves := saves d |}
  else None.

(** The disk a write that raised leaves behind: as it was when [open]
    raised, and with the file cut short, hence unreadable, when [open] had
    emptied it before [json.dump] raised. *)
Definition failed_write (w : World) (name : string) (d : Disk) : Disk :=
  if truncates w name
  then {| files := <[name := Unreadable]> (files d);
          written := written d ++ [name];
          saves := saves d |}
  else d.

(** A write inside [try: ... except: ...] whose handler only prints. *)
Definition try_write (w : World) (name : string) (data : File) (d : Disk) : Disk :=
  default (failed_write w name d) (write_file w name data d).

Definition save_continuous (w : World) (products : list Product) (d : Disk) : Disk :=
  let d := {| files := files d; written := written d;
              saves := saves d ++ [length products] |} in
  let temp_data := Checkpoint (now w) (length products) in_progress products in
  match write_file w temp_file temp_data d with
  | Some d1 =>
      match write_file w (backup_name (length products)) temp_data d1 with
      | Some d2 => d2
      | None =>
          try_write w (emergency_name (now w)) (Fallback products)
            (failed_write w (backup_name (length products)) d1)
      end
  | None =>
      try_write w (emergency_name (now w)) (Fallback products)
        (failed_write w temp_file d)
  end.

(** [save_final_data], on [self.all_products]. *)
Definition save_final_data (w : World) (all_products : list Product) (d : Disk) : Disk :=
  let final_data :=
    Checkpoint (now w) (length all_products) completed all_products in
  match write_file w output_file final_data d with
  | Some d1 => d1
  | None =>
      try_write w (final_backup_name (now w)) (Fallback all_products)
        (failed_write w output_file d)
  end.

(** [temp_data.get('products')] *)
Definition file_products (f : File) : list Product :=
  match f with
  | Checkpoint _ _ _ products => products
  | Fallback products => products
  | Session _ | Unreadable => []
  end.

(** [load_previous_progress], followed by line 541: the value of
    [self.all_products] once the progress check is done.  It is [[]] unless
    the temp file holds a non-empty product list and the user answers y. *)
Definition load_previous_progress (w : World) (d : Disk) : list Product :=
  match files d !! temp_file with
  | Some f =>
      match file_products f with
      | [] => []
      | products => if resume_answer w then products else []
      end
  | None => []
  end.

(** [load_session]: a session file at most 24 hours old whose cookies
    the browser context accepts; [add_cookies] raising gives [False]. *)
Definition load_session (w : World) (d : Disk) : bool :=
  match files d !! session_file with
  | Some (Session timestamp) =>
      if (86400 <? now w - timestamp)%Z then false
      else negb (add_cookies_raises w)
  | _ => false
  end.

Definition save_session (w : World) (d : Disk) : Disk :=
  try_write w session_file (Session (now w)) d.

(** ** The extraction loop *)

(** The scraper object during [extract_product_data]: its result list, its
    id cache, the disk, and how often the page has been read. *)
Record Scraper := mkScraper {
  all_products : list Product;
  existing_ids_cache : gset string;
  disk : Disk;
  extractions : nat
}.

(** The counters of the [while] loop. *)
Record Counters := mkCounters {
  consecutive_no_new_data : nat;
  total_attempts : nat
}.

Definition max_no_data_attempts : nat := 5.
Definition max_attempts : nat := 100.
Definition target_count : nat := 3300.

(** How one pass through the loop body ends. *)
Inductive Flow := Continue | Break | Raise.

(** Lines 652-657: the filter of a verification pass (no [any] test). *)
Fixpoint final_filter (cache : gset string) (final_batch : list Product)
  : list Product * gset string :=
  match final_batch with
  | [] => ([], cache)
  | product :: rest =>
      match p_id product with
      | Some product_id =>
          if truthy (Some product_id) && negb (bool_decide (product_id ∈ cache))
          then
            let '(added, cache') := final_filter ({[product_id]} ∪ cache) rest in
            (product :: added, cache')
          else final_filter cache rest
      | None => final_filter cache rest
      end
  end.

(** Lines 644-662: one [final_attempt] of the verification block. *)
Definition final_attempt (w : World) (s : Scraper) : Scraper :=
  let final_batch := extract_current_page_data (page w (extractions s)) in
  let '(added, cache') := final_filter (existing_ids_cache s) final_batch in
  let all' := all_products s ++ added in
  {| all_products := all';
     existing_ids_cache := cache';
     disk := save_continuous w all' (disk s);
     extractions := S (extractions s) |}.

(** Lines 576-694: the body of the [while] loop. *)
Definition attempt (w : World) (s : Scraper) (c : Counters)
  : Flow * Scraper * Counters :=
  let total_attempts := S (total_attempts c) in
  if scroll_raises w total_attempts then
    (Raise, s, mkCounters (consecutive_no_new_data c) total_attempts)
  else
    let new_batch := extract_current_page_data (page w (extractions s)) in
    let '(new_unique_products, cache') :=
      filterNew (existing_ids_cache s) new_batch in
    let all' := all_products s ++ new_unique_products in
    let current_count := length all' in
    let new_count := length new_unique_products in
    let disk' :=
      if (total_attempts mod 5 =? 0) || (new_count =? 0)
      then save_continuous w all' (disk s) else disk s in
    let consecutive :=
      if new_count =? 0 then S (consecutive_no_new_data c) else 0 in
    let s' := mkScraper all' cache' disk' (S (extractions s)) in
    let c' := mkCounters consecutive total_attempts in
    if target_count <=? current_count then (Break, s', c')
    else if target_count <=? current_count then
      (Break, final_attempt w (final_attempt w s'), c')
    else if consecutive =? 3 then
      (if recovery_raises w total_attempts then Raise else Continue, s', c')
    else (Continue, s', c').

(** The loop condition of line 575. *)
Definition loop_guard (c : Counters) : bool :=
  (consecutive_no_new_data c <? max_no_data_attempts)
  && (total_attempts c <? max_attempts).

(** The [while] loop.  [None] means the fuel ran out with the guard still
    true; otherwise the flow is [Raise] when the body raised and [Break] or
    [Continue] when the loop was left by [break] or by its guard. *)
Fixpoint while_loop (fuel : nat) (w : World) (s : Scraper) (c : Counters)
  : option (Flow * Scraper * Counters) :=
  if loop_guard c then
    match fuel with
    | 0 => None
    | S fuel' =>
        match attempt w s c with
        | (Continue, s', c') => while_loop fuel' w s' c'
        | stopped => Some stopped
        end
    end
  else Some (Continue, s, c).

(** Lines 556-570: the scraper as the loop finds it, given the products the
    progress check left in [self.all_products]. *)
Definition loop_entry (w : World) (loaded : list Product) (d : Disk) : Scraper :=
  let starting_count := length loaded in
  if starting_count =? 0 then
    let current_products := extract_current_page_data (page w 0) in
    let all' := loaded ++ current_products in
    mkScraper all' (list_to_set (ids_of all')) (save_continuous w all' d) 1
  else
    mkScraper loaded (list_to_set (ids_of loaded)) d 0.

(** [extract_product_data]: the returned list and the disk. *)
Definition extract_product_data (fuel : nat) (w : World) (d : Disk)
  : option (list Product * Disk) :=
  let loaded := load_previous_progress w d in
  if negb (find_scrollable_table_container w) then Some (loaded, d)
  else
    match while_loop fuel w (loop_entry w loaded d) (mkCounters 0 0) with
    | None => None
    | Some (Raise, s, _) =>
        Some (all_products s,
              match all_products s with
              | [] => disk s
              | _ => save_continuous w (all_products s) (disk s)
              end)
    | Some (_, s, _) =>
        Some (all_products s, save_continuous w (all_products s) (disk s))
    end.

(** [run]: whether the run reports success, and the disk it leaves. *)
Definition run (fuel : nat) (w : World) (d : Disk) : option (bool * Disk) :=
  if startup_raises w then Some (false, d)
  else
    let session_loaded := load_session w d in
    let entered :=
      if negb session_loaded || negb (check_authentication w)
      then (if negb (authenticate w) then None else Some (save_session w d))
      else Some d in
    match entered with
    | None => Some (false, d)
    | Some d1 =>
        if negb (launch_challenge w) then Some (false, d1)
        else if negb (navigate_to_product_table w) then Some (false, d1)
        else
          match extract_product_data fuel w d1 with
          | None => None
          | Some ([], d2) => Some (false, d2)
          | Some (products, d2) => Some (true, save_final_data w products d2)
          end
    end.

(** ** Stated properties and sample inputs *)

(** No two records of the list share a non-empty id. *)
Definition unique_ids (ps : list Product) : Prop :=
  ∀ i j p q, ps !! i = Some p → ps !! j = Some q →
             truthy (p_id p) = true → p_id p = p_id q → i = j.

(** The states the loop passes through from [(s0, c0)]: the entry, and the
    state after every attempt made while the guard holds and no earlier
    attempt broke out or raised.  The flow is that of the last attempt. *)
Inductive visits (w : World) (s0 : Scraper) (c0 : Counters)
  : Flow → Scraper → Counters → Prop :=
| visits_entry : visits w s0 c0 Continue s0 c0
| visits_attempt s c flow s' c' :
    visits w s0 c0 Continue s c →
    loop_guard c = true →
    attempt w s c = (flow, s', c') →
    visits w s0 c0 flow s' c'.

(** A table row of eight cells with the given id, description and sku. *)
Definition row_of (id_text description sku : string) : Row :=
  RowCells true [Some id_text; Some description; None; None; None; Some sku;
                 None; None].

(** The product [extract_row] makes of [row_of]. *)
Definition product_of (id_text description sku : string) : Product :=
  {| p_id := cell_value (Some id_text);
     p_description := cell_value (Some description);
     p_stock := None; p_color := None; p_price := None;
     p_sku := cell_value (Some sku);
     p_manufacturer := None; p_item := None; p_size := None |}.

(** The batch and the seen set of the example scenario: ids A1, A3, A3 and
    an empty id. *)
Definition example_batch : list Product :=
  [product_of "A1" "bolt" "S1"; product_of "A3" "nut" "S3";
   product_of "A3" "nut" "S3"; mkProduct (Some "") (Some "washer") None None
                                 None (Some "S4") None None None].

Definition example_seen : gset string := {["A1"; "A2"]}.

Definition empty_disk : Disk := mkDisk ∅ [] [].

(** A world in which every step before the extraction succeeds, every file
    can be written and nothing raises; the table always shows [rows]. *)
Definition steady_world (rows : list Row) : World :=
  {| now := 1700000000;
     writable := λ _, true;
     truncates := λ _, false;
     add_cookies_raises := false;
     resume_answer := true;
     startup_raises := false;
     check_authentication := true;
     authenticate := true;
     launch_challenge := true;
     navigate_to_product_table := true;
     find_scrollable_table_container := true;
     page := λ _, Some rows;
     scroll_raises := λ _, false;
     recovery_raises := λ _, false |}.

(** The batch an attempt reads, and what its filter returns. *)
Definition new_batch (w : World) (s : Scraper) : list Product :=
  extract_current_page_data (page w (extractions s)).

Definition new_unique (w : World) (s : Scraper) : list Product :=
  (filterNew (existing_ids_cache s) (new_batch w s)).1.

(** The test of line 609 for attempt number [n] with [new_count] new rows. *)
Definition checkpoint_due (n new_count : nat) : bool :=
  (n mod 5 =? 0) || (new_count =? 0).

(** The result list is [start] followed by records that each have a
    non-empty id, different from one another and from the ids in [start],
    and the cache knows every id of the list. *)
Definition grown_from (start : list Product) (s : Scraper) : Prop :=
  ∃ added,
    all_products s = start ++ added
    ∧ Forall (λ p, truthy (p_id p) = true) added
    ∧ NoDup (ids_of added)
    ∧ (∀ k, k ∈ ids_of added → k ∉ ids_of start)
    ∧ (∀ k, k ∈ ids_of (all_products s) → k ∈ existing_ids_cache s).

(** Two visible rows that show the same id. *)
Definition duplicate_rows : list Row :=
  [row_of "A1" "bolt" "S1"; row_of "A1" "bolt" "S1"].

Definition distinct_rows : list Row :=
  [row_of "A1" "bolt" "S1"; row_of "A2" "nut" "S2"].

(** A row without an id but with a sku. *)
Definition sku_only_rows : list Row := [row_of "" "washer" "S4"].

(** A checkpoint of 3300 products P0 .. P3299 left by an earlier run. *)
Definition resumed_products : list Product :=
  (λ n, product_of ("P" +:+ NilEmpty.string_of_uint (Nat.to_uint n)) "item" "sku")
    <$> seq 0 3300.

Definition resumed_disk : Disk :=
  mkDisk {[ temp_file := Checkpoint 1699990000 3300 in_progress resumed_products ]}
         [] [].

(** A table that shows one row not seen before every time it is read. *)
Definition late_rows_world : World :=
  {| now := 1700000000;
     writable := λ _, true;
     truncates := λ _, false;
     add_cookies_raises := false;
     resume_answer := true;
     startup_raises := false;
     check_authentication := true;
     authenticate := true;
     launch_challenge := true;
     navigate_to_product_table := true;
     find_scrollable_table_container := true;
     page := λ k, Some [row_of ("N" +:+ NilEmpty.string_of_uint (Nat.to_uint k))
                                "late" "sku"];
     scroll_raises := λ _, false;
     recovery_raises := λ _, false |}.

(** The disk with which [run] calls [extract_product_data]; [None] when
    [run] gives up before (start-up raised, or signing in, launching the
    challenge or finding the table failed). *)
Definition reaches_extraction (w : World) (d : Disk) : option Disk :=
  if startup_raises w then None
  else if negb (launch_challenge w && navigate_to_product_table w) then None
  else if negb (load_session w d) || negb (check_authentication w)
       then (if authenticate w then Some (save_session w d) else None)
       else Some d.

(** A checkpoint of two products left by an earlier run. *)
Definition small_checkpoint : list Product :=
  [product_of "A1" "bolt" "S1"; product_of "A2" "nut" "S2"].

Definition small_resumed_disk : Disk :=
  mkDisk {[ temp_file := Checkpoint 1699990000 2 in_progress small_checkpoint ]}
         [] [].

(** The table is there but nothing on the page scrolls. *)
Definition no_container_world : World :=
  {| now := 1700000000;
     writable := λ _, true;
     truncates := λ _, false;
     add_cookies_raises := false;
     resume_answer := true;
     startup_raises := false;
     check_authentication := true;
     authenticate := true;
     launch_challenge := true;
     navigate_to_product_table := true;
     find_scrollable_table_container := false;
     page := λ _, Some distinct_rows;
     scroll_raises := λ _, false;
     recovery_raises := λ _, false |}.


(** The loop after at most [n] attempts: like [while_loop], but handing
    back the state reached when the [n] attempts are used up. *)
Fixpoint loop_prefix (n : nat) (w : World) (s : Scraper) (c : Counters)
  : Flow * Scraper * Counters :=
  match n with
  | 0 => (Continue, s, c)
  | S n' =>
      if loop_guard c then
        match attempt w s c with
        | (Continue, s', c') => loop_prefix n' w s' c'
        | stopped => stopped
        end
      else (Continue, s, c)
  end.

(** A page that never shows a row, on which the scroll burst of the fifth
    attempt raises. *)
Definition raising_fifth_world : World :=
  {| now := 1700000000;
     writable := λ _, true;
     truncates := λ _, false;
     add_cookies_raises := false;
     resume_answer := true;
     startup_raises := false;
     check_authentication := true;
     authenticate := true;
     launch_challenge := true;
     navigate_to_product_table := true;
     find_scrollable_table_container := true;
     page := λ _, Some [];
     scroll_raises := λ n, n =? 5;
     recovery_raises := λ _, false |}.


(** ** Further notions used in the properties *)

(** A row the extractor passes over: it raised, it is hidden, or it has
    fewer than eight cells. *)
Definition skipped_row (r : Row) : Prop :=
  match r with
  | RowError => True
  | RowCells visible cells => visible = false ∨ length cells < 8
  end.

(** ** The interrupt handler *)

(** [handle_interrupt], as far as the disk goes: the final save of whatever
    [self.all_products] holds when the signal arrives.  Closing the browser
    and leaving with status 0 write nothing. *)
Definition handle_interrupt (w : World) (all_products : list Product) (d : Disk)
  : Disk :=
  save_final_data w all_products d.

(** ** Probing the page *)

(** [pattern in text] on Python strings. *)
Fixpoint contains (pattern text : string) : bool :=
  String.prefix pattern text
  || match text with
     | EmptyString => false
     | String _ rest => contains pattern rest
     end.

(** A selector argument in double quotes, as in [input[type="password"]]. *)
Definition quoted (s : string) : string :=
  String (Ascii.ascii_of_nat 34) (s +:+ String (Ascii.ascii_of_nat 34) "").

Module Dom.

(** What [element.evaluate] reads off an element. *)
Record Element := mkElement {
  scrollHeight : Z;
  clientHeight : Z
}.

(** [el.scrollHeight > el.clientHeight] *)
Definition hasVerticalScroll (e : Element) : bool :=
  (clientHeight e <? scrollHeight e)%Z.

(** [query_selector_all] on the page: [None] when the call raises, else
    the matching elements in document order, each [None] when evaluating
    it raises. *)
Definition Document := string → option (list (option Element)).

Definition container_selectors : list string :=
  ["div[style*=" +:+ quoted "overflow" +:+ "]";
   ".table-container";
   "div[style*=" +:+ quoted "max-height" +:+ "]";
   ".overflow-auto";
   ".overflow-y-auto";
   "tbody";
   "table"].

(** How the inner [for element in elements] loop ends. *)
Inductive Scan :=
| Found (e : Element)
| Exhausted
| Raised.

Fixpoint scan (elements : list (option Element)) : Scan :=
  match elements with
  | [] => Exhausted
  | None :: _ => Raised
  | Some e :: rest => if hasVerticalScroll e then Found e else scan rest
  end.

(** The outer loop over the selectors; a selector whose [try] block
    raises is skipped by [continue]. *)
Fixpoint probe (doc : Document) (selectors : list string) : option Element :=
  match selectors with
  | [] => None
  | selector :: rest =>
      match doc selector with
      | None => probe doc rest
      | Some elements =>
          match scan elements with
          | Found e => Some e
          | Exhausted | Raised => probe doc rest
          end
      end
  end.

Definition find_scrollable_table_container (doc : Document) : option Element :=
  probe doc container_selectors.

End Dom.

Module Auth.

(** The page as [check_authentication] sees it: whether waiting for the
    network to settle raises, the address, and for which selectors
    [wait_for_selector] returns an element instead of timing out. *)
Record Page := mkPage {
  load_state_raises : bool;
  url : string;
  selector_found : string → bool
}.

Definition login_form_selectors : list string :=
  ["input[type=" +:+ quoted "password" +:+ "]";
   "input[name=" +:+ quoted "password" +:+ "]";
   "button:has-text(" +:+ quoted "Login" +:+ ")";
   "button:has-text(" +:+ quoted "Sign In" +:+ ")";
   "input[type=" +:+ quoted "email" +:+ "]"].

(** [check_authentication]: the [except] branch answers [True]. *)
Definition check_authentication (p : Page) : bool :=
  if load_state_raises p then true
  else if contains "/instructions" (url p) then true
  else if contains "/challenge" (url p) then true
  else negb (existsb (selector_found p) login_form_selectors).

End Auth.

(** A world like [steady_world []] in which the temp file cannot be
    written. *)
Definition locked_temp_world : World :=
  {| now := 1700000000;
     writable := λ name, negb (String.eqb name temp_file);
     truncates := λ _, false;
     add_cookies_raises := false;
     resume_answer := true;
     startup_raises := false;
     check_authentication := true;
     authenticate := true;
     launch_challenge := true;
     navigate_to_product_table := true;
     find_scrollable_table_container := true;
     page := λ _, Some [];
     scroll_raises := λ _, false;
     recovery_raises := λ _, false |}.

(** A world like [steady_world []] in which the write of the temp file
    raises after the file has been opened, and so does every other failed
    write. *)
Definition torn_temp_world : World :=
  {| now := 1700000000;
     writable := λ name, negb (String.eqb name temp_file);
     truncates := λ _, true;
     add_cookies_raises := false;
     resume_answer := true;
     startup_raises := false;
     check_authentication := true;
     authenticate := true;
     launch_challenge := true;
     navigate_to_product_table := true;
     find_scrollable_table_container := true;
     page := λ _, Some [];
     scroll_raises := λ _, false;
     recovery_raises := λ _, false |}.

(** A world like [steady_world []] in which product_data.json cannot be
    written. *)
Definition locked_output_world : World :=
  {| now := 1700000000;
     writable := λ name, negb (String.eqb name output_file);
     truncates := λ _, false;
     add_cookies_raises := false;
     resume_answer := true;
     startup_raises := false;
     check_authentication := true;
     authenticate := true;
     launch_challenge := true;
     navigate_to_product_table := true;
     find_scrollable_table_container := true;
     page := λ _, Some [];
     scroll_raises := λ _, false;
     recovery_raises := λ _, false |}.

(** A world in which signing in fails. *)
Definition failed_login_world : World :=
  {| now := 1700000000;
     writable := λ _, true;
     truncates := λ _, false;
     add_cookies_raises := false;
     resume_answer := true;
     startup_raises := false;
     check_authentication := false;
     authenticate := false;
     launch_challenge := true;
     navigate_to_product_table := true;
     find_scrollable_table_container := true;
     page := λ _, Some distinct_rows;
     scroll_raises := λ _, false;
     recovery_raises := λ _, false |}.

(** A page whose overflow [div] raises when measured, and whose [tbody]
    scrolls. *)
Definition sample_document : Dom.Document :=
  λ selector,
    if String.eqb selector ("div[style*=" +:+ quoted "overflow" +:+ "]")
    then Some [None; Some (Dom.mkElement 900 300)]
    else if String.eqb selector "tbody"
         then Some [Some (Dom.mkElement 300 300); Some (Dom.mkElement 4000 600)]
         else Some [].

(** A login page whose address carries the challenge path as a parameter. *)
Definition redirect_login_page : Auth.Page :=
  Auth.mkPage false "https://hiring.idenhq.com/login?next=/challenge" (λ _, true).

(** * Properties *)

(** ** Truth values and ids *)

Arguments truthy : simpl never.
Arguments any_values : simpl never.

Lemma truthy_Some (k : string) : truthy (Some k) = true ↔ k ≠ "".
Proof.
  unfold truthy. rewrite negb_true_iff. split.
  - intros H ->. by rewrite String.eqb_refl in H.
  - intros H. by apply String.eqb_neq.
Qed.

Lemma truthy_any_values (p : Product) : truthy (p_id p) = true → any_values p = true.
Proof. intros H. unfold any_values, values. cbn [existsb]. by rewrite H. Qed.

Lemma id_key_Some (p : Product) (k : string) :
  id_key p = Some k ↔ p_id p = Some k ∧ truthy (p_id p) = true.
Proof.
  unfold id_key. destruct (truthy (p_id p)) eqn:E; [tauto|].
  split; [done | by intros [_ ?]].
Qed.

Lemma id_key_None (p : Product) : id_key p = None ↔ truthy (p_id p) = false.
Proof.
  unfold id_key. destruct (truthy (p_id p)) eqn:E; [|done].
  destruct (p_id p); [|done]. split; done.
Qed.

Lemma ids_of_app (ps qs : list Product) : ids_of (ps ++ qs) = ids_of ps ++ ids_of qs.
Proof. apply omap_app. Qed.

Lemma elem_of_ids_of (k : string) (ps : list Product) :
  k ∈ ids_of ps ↔ ∃ p, p ∈ ps ∧ id_key p = Some k.
Proof. apply list_elem_of_omap. Qed.

(** ** The duplicate filter *)

(** One step of [filterNew], by the three ways a product is handled. *)
Lemma filterNew_cons_keep (cache : gset string) p k rest :
  p_id p = Some k → k ≠ "" → k ∉ cache →
  filterNew cache (p :: rest) =
    (p :: (filterNew ({[k]} ∪ cache) rest).1, (filterNew ({[k]} ∪ cache) rest).2).
Proof.
  intros Hid Hk Hc. simpl. rewrite Hid.
  rewrite (proj2 (truthy_Some k) Hk), bool_decide_eq_false_2 by done.
  rewrite truthy_any_values by (rewrite Hid; by apply truthy_Some).
  simpl. by destruct (filterNew _ rest).
Qed.

Lemma filterNew_cons_seen (cache : gset string) p k rest :
  p_id p = Some k → k ∈ cache → filterNew cache (p :: rest) = filterNew cache rest.
Proof.
  intros Hid Hc. simpl. rewrite Hid, bool_decide_eq_true_2 by done.
  by rewrite andb_false_r.
Qed.

Lemma filterNew_cons_no_id (cache : gset string) p rest :
  truthy (p_id p) = false → filterNew cache (p :: rest) = filterNew cache rest.
Proof.
  intros Hid. simpl. destruct (p_id p) as [k|]; [|done]. by rewrite Hid.
Qed.

(** The three cases are exhaustive. *)
Lemma product_cases (cache : gset string) (p : Product) :
  (∃ k, p_id p = Some k ∧ (k ≠ "") ∧ (k ∉ cache) ∧ id_key p = Some k)
  ∨ (∃ k, p_id p = Some k ∧ (k ∈ cache) ∧ (k ≠ "") ∧ id_key p = Some k)
  ∨ (truthy (p_id p) = false ∧ id_key p = None).
Proof.
  destruct (truthy (p_id p)) eqn:E.
  - destruct (p_id p) as [k|] eqn:Hid; [|done].
    assert (id_key p = Some k) by (apply id_key_Some; by rewrite Hid).
    apply truthy_Some in E.
    destruct (decide (k ∈ cache)); [right; left | left]; eauto 10.
  - right; right. split; [done|]. by apply id_key_None.
Qed.

(** After the filter the cache holds the ids of the whole batch. *)
Lemma filterNew_cache (cache : gset string) batch :
  (filterNew cache batch).2 = list_to_set (ids_of batch) ∪ cache.
Proof.
  revert cache. induction batch as [|p rest IH]; intros cache.
  - simpl. set_solver.
  - destruct (product_cases cache p) as [(k&?&?&?&Hk)|[(k&?&?&?&Hk)|[? Hk]]].
    + rewrite (filterNew_cons_keep _ _ k) by done. simpl.
      rewrite IH. unfold ids_of. simpl. fold (ids_of rest). rewrite Hk. set_solver.
    + rewrite (filterNew_cons_seen _ _ k) by done.
      rewrite IH. unfold ids_of. simpl. fold (ids_of rest). rewrite Hk. set_solver.
    + rewrite filterNew_cons_no_id by done.
      rewrite IH. unfold ids_of. simpl. by rewrite Hk.
Qed.

(** What the filter returns: products with a non-empty id, pairwise
    different ids, none of them in the cache before. *)
Lemma filterNew_new (cache : gset string) batch :
  Forall (λ p, truthy (p_id p) = true) (filterNew cache batch).1
  ∧ NoDup (ids_of (filterNew cache batch).1)
  ∧ (∀ k, k ∈ ids_of (filterNew cache batch).1 → k ∉ cache)
  ∧ (∀ p, p ∈ (filterNew cache batch).1 → p ∈ batch).
Proof.
  revert cache. induction batch as [|p rest IH]; intros cache.
  - simpl. repeat split; try constructor; set_solver.
  - destruct (product_cases cache p) as [(k&Hid&?&?&Hk)|[(k&?&?&?&Hk)|[? Hk]]].
    + rewrite (filterNew_cons_keep _ _ k) by done. simpl.
      destruct (IH ({[k]} ∪ cache)) as (IH1 & IH2 & IH3 & IH4).
      unfold ids_of in *. simpl. rewrite Hk. repeat split.
      * constructor; [|done]. rewrite Hid. by apply truthy_Some.
      * constructor; [|done]. intros Hin. apply IH3 in Hin. set_solver.
      * intros k' [->|Hin]%elem_of_cons; [done|]. apply IH3 in Hin. set_solver.
      * intros q [->|Hin]%elem_of_cons; [left | right; by apply IH4].
    + rewrite (filterNew_cons_seen _ _ k) by done.
      destruct (IH cache) as (IH1 & IH2 & IH3 & IH4). repeat split; try done.
      intros q Hin. right. by apply IH4.
    + rewrite filterNew_cons_no_id by done.
      destruct (IH cache) as (IH1 & IH2 & IH3 & IH4). repeat split; try done.
      intros q Hin. right. by apply IH4.
Qed.

(** The ids added to the cache are those of the returned products. *)
Lemma filterNew_cache_new (cache : gset string) batch :
  (filterNew cache batch).2 = list_to_set (ids_of (filterNew cache batch).1) ∪ cache.
Proof.
  revert cache. induction batch as [|p rest IH]; intros cache.
  - simpl. set_solver.
  - destruct (product_cases cache p) as [(k&?&?&?&Hk)|[(k&?&?&?&Hk)|[? Hk]]].
    + rewrite (filterNew_cons_keep _ _ k) by done. simpl.
      rewrite IH. unfold ids_of. simpl. rewrite Hk. set_solver.
    + rewrite (filterNew_cons_seen _ _ k) by done. apply IH.
    + rewrite filterNew_cons_no_id by done. apply IH.
Qed.

(** A batch whose ids are all in the cache yields nothing. *)
Lemma filterNew_all_seen (cache : gset string) batch :
  (∀ k, k ∈ ids_of batch → k ∈ cache) → filterNew cache batch = ([], cache).
Proof.
  induction batch as [|p rest IH]; intros Hseen; [done|].
  assert (∀ k, k ∈ ids_of rest → k ∈ cache) as Hrest.
  { intros k Hin. apply Hseen. unfold ids_of in *. simpl.
    destruct (id_key p); [by right | done]. }
  destruct (product_cases cache p) as [(k&?&?&Hnot&Hk)|[(k&?&?&?&Hk)|[? Hk]]].
  - exfalso. apply Hnot, Hseen. unfold ids_of. simpl. rewrite Hk. by left.
  - rewrite (filterNew_cons_seen _ _ k) by done. by apply IH.
  - rewrite filterNew_cons_no_id by done. by apply IH.
Qed.

Lemma filterNew_twice (cache : gset string) batch :
  filterNew (filterNew cache batch).2 batch = ([], (filterNew cache batch).2).
Proof.
  apply filterNew_all_seen. intros k Hin. rewrite filterNew_cache. set_solver.
Qed.

(** The filter agrees with its specification, also when started in the
    middle of a batch: [pre] is the part of the batch already handled. *)
Lemma filterNew_spec_from (seen : gset string) pre batch :
  (filterNew (list_to_set (ids_of pre) ∪ seen) batch).1 =
  omap (λ ip, if keeps_spec seen (pre ++ batch) ip.1 ip.2 then Some ip.2 else None)
       (imap (λ i, pair (length pre + i)) batch).
Proof.
  revert pre. induction batch as [|p rest IH]; intros pre; [done|].
  rewrite imap_cons. cbn [omap list_omap fst snd].
  assert (take (length pre + 0) (pre ++ p :: rest) = pre) as Htake.
  { rewrite Nat.add_0_r. apply take_app_length. }
  assert (omap (λ ip, if keeps_spec seen (pre ++ p :: rest) ip.1 ip.2
                      then Some ip.2 else None)
               (imap ((λ i, pair (length pre + i)) ∘ S) rest)
          = (filterNew (list_to_set (ids_of (pre ++ [p])) ∪ seen) rest).1) as Htail.
  { rewrite IH, <- app_assoc. simpl. f_equal. apply imap_ext.
    intros i x _. simpl. rewrite length_app. simpl. f_equal. lia. }
  rewrite Htail, ids_of_app. clear Htail IH.
  unfold keeps_spec at 1. rewrite Htake.
  destruct (product_cases (list_to_set (ids_of pre) ∪ seen) p)
    as [(k&Hid&Hne&Hnot&Hk)|[(k&Hid&Hin&Hne&Hk)|[Hno Hk]]].
  - rewrite (filterNew_cons_keep _ _ k), Hid by done.
    apply String.eqb_neq in Hne. rewrite Hne.
    rewrite (bool_decide_eq_false_2 (k ∈ seen)) by set_solver.
    rewrite (bool_decide_eq_false_2 (k ∈ ids_of pre))
      by (intros ?; apply Hnot, elem_of_union_l; by apply elem_of_list_to_set).
    rewrite truthy_any_values
      by (rewrite Hid; apply truthy_Some; by apply String.eqb_neq).
    replace (list_to_set (ids_of pre ++ ids_of [p]) ∪ seen)
      with ({[k]} ∪ (list_to_set (ids_of pre) ∪ seen) : gset string); [done|].
    unfold ids_of at 3. simpl. rewrite Hk. set_solver.
  - rewrite (filterNew_cons_seen _ _ k), Hid by done.
    replace (list_to_set (ids_of pre ++ ids_of [p]) ∪ seen)
      with (list_to_set (ids_of pre) ∪ seen : gset string)
      by (unfold ids_of at 3; simpl; rewrite Hk; set_solver).
    destruct (decide (k ∈ seen)).
    + rewrite (bool_decide_eq_true_2 (k ∈ seen)) by done.
      by rewrite andb_false_r.
    + rewrite (bool_decide_eq_true_2 (k ∈ ids_of pre)) by set_solver.
      by rewrite andb_false_r.
  - rewrite filterNew_cons_no_id by done.
    replace (ids_of [p]) with (@nil string)
      by (unfold ids_of; simpl; by rewrite Hk).
    rewrite app_nil_r.
    destruct (p_id p) as [k|]; [|done].
    unfold truthy in Hno. apply negb_false_iff in Hno. by rewrite Hno.
Qed.

Lemma filterNew_refines_spec (seen : gset string) batch :
  (filterNew seen batch).1 = filterNew_spec seen batch.
Proof.
  unfold filterNew_spec.
  change (omap _ (imap pair batch)) with
    (omap (λ ip : nat * Product,
             if keeps_spec seen ([] ++ batch) ip.1 ip.2 then Some ip.2 else None)
          (imap (λ i, pair (length (@nil Product) + i)) batch)).
  rewrite <- filterNew_spec_from.
  replace (list_to_set (ids_of []) ∪ seen) with seen; [done|].
  unfold ids_of. simpl. set_solver.
Qed.

(** C6.  [filterNew] returns exactly the records of the batch whose id is
    non-empty, is not in the seen set, has not occurred earlier in the same
    batch, and which carry a non-empty field; the seen set grows by the ids
    of the returned records.  With the seen set {A1, A2} and the batch
    A1, A3, A3, "" it returns the one record A3, and fed the same batch again
    it returns nothing. *)
Theorem C6_filterNew_meets_spec :
  (∀ (seen : gset string) (batch : list Product),
     (filterNew seen batch).1 = filterNew_spec seen batch
     ∧ (filterNew seen batch).2
       = list_to_set (ids_of (filterNew seen batch).1) ∪ seen
     ∧ p_id <$> (filterNew seen batch).1
       = Some <$> ids_of (filterNew seen batch).1)
  ∧ (filterNew example_seen example_batch).1 = [product_of "A3" "nut" "S3"]
  ∧ (filterNew (filterNew example_seen example_batch).2 example_batch).1 = [].
Proof.
  split; [|split; reflexivity].
  intros seen batch. split; [apply filterNew_refines_spec|].
  split; [apply filterNew_cache_new|].
  destruct (filterNew_new seen batch) as (Hall & _).
  induction Hall as [|p ps Hp _ IH]; [done|].
  unfold ids_of in *. cbn [fmap list_fmap omap list_omap]. rewrite IH.
  unfold id_key. rewrite Hp. by destruct (p_id p).
Qed.

(** C7.  Feeding the same batch twice in a row through the filter adds
    nothing the second time: the second call returns no record and leaves
    the seen set as the first call left it, so the result list to which the
    returned records are appended does not change. *)
Theorem C7_second_feed_adds_nothing (seen : gset string) (batch result : list Product) :
  let first := filterNew seen batch in
  let second := filterNew first.2 batch in
  second.1 = []
  ∧ second.2 = first.2
  ∧ (result ++ first.1) ++ second.1 = result ++ first.1.
Proof.
  simpl. rewrite filterNew_twice. simpl. by rewrite app_nil_r.
Qed.

(** ** Unique ids *)

Lemma unique_ids_cons (p : Product) (ps : list Product) :
  unique_ids (p :: ps) ↔ (∀ k, id_key p = Some k → k ∉ ids_of ps) ∧ unique_ids ps.
Proof.
  split.
  - intros Hu. split.
    + intros k [Hid Ht]%id_key_Some (q & Hq & [Hqid _]%id_key_Some)%elem_of_ids_of.
      apply list_elem_of_lookup in Hq as [j Hj].
      assert (0 = S j); [|done].
      apply (Hu 0 (S j) p q); [done|done|done|congruence].
    + intros i j q1 q2 H1 H2 Ht Heq.
      assert (S i = S j); [|lia]. by apply (Hu (S i) (S j) q1 q2).
  - intros [Hp Hu] i j q1 q2 H1 H2 Ht Heq.
    destruct i as [|i], j as [|j]; simpl in *; simplify_eq.
    + done.
    + exfalso. destruct (p_id q1) as [k|] eqn:Hk; [|done].
      apply (Hp k); [apply id_key_Some; by rewrite Hk|].
      apply elem_of_ids_of. exists q2. split; [by eapply list_elem_of_lookup_2|].
      apply id_key_Some. by rewrite <- Heq.
    + exfalso. destruct (p_id q1) as [k|] eqn:Hk; [|done].
      apply (Hp k); [apply id_key_Some; by rewrite <- Heq|].
      apply elem_of_ids_of. exists q1. split; [by eapply list_elem_of_lookup_2|].
      apply id_key_Some. by rewrite Hk.
    + f_equal. by apply (Hu i j q1 q2).
Qed.

Lemma unique_ids_NoDup (ps : list Product) : unique_ids ps ↔ NoDup (ids_of ps).
Proof.
  induction ps as [|p ps IH].
  - split; [constructor|]. intros _ i j p q H. done.
  - rewrite unique_ids_cons, IH. unfold ids_of. simpl.
    destruct (id_key p) as [k|] eqn:Hk.
    + rewrite NoDup_cons. split.
      * intros [H ?]. split; [by apply H | done].
      * intros [H ?]. split; [by intros ? [= <-] | done].
    + split; [by intros [_ ?] | done].
Qed.

Global Instance unique_ids_dec (ps : list Product) : Decision (unique_ids ps).
Proof.
  refine (cast_if (decide (NoDup (ids_of ps)))); by rewrite unique_ids_NoDup.
Defined.

(** ** One attempt *)

Lemma attempt_raised w s c :
  scroll_raises w (S (total_attempts c)) = true →
  attempt w s c
  = (Raise, s, mkCounters (consecutive_no_new_data c) (S (total_attempts c))).
Proof. intros H. unfold attempt. by rewrite H. Qed.

(** An attempt whose scroll burst does not raise, written out. *)
Lemma attempt_scrolled w s c :
  scroll_raises w (S (total_attempts c)) = false →
  let all' := all_products s ++ new_unique w s in
  let new_count := length (new_unique w s) in
  let consecutive :=
    if new_count =? 0 then S (consecutive_no_new_data c) else 0 in
  attempt w s c =
    (if target_count <=? length all' then Break
     else if consecutive =? 3
          then (if recovery_raises w (S (total_attempts c)) then Raise else Continue)
          else Continue,
     {| all_products := all';
        existing_ids_cache := (filterNew (existing_ids_cache s) (new_batch w s)).2;
        disk := if checkpoint_due (S (total_attempts c)) new_count
                then save_continuous w all' (disk s) else disk s;
        extractions := S (extractions s) |},
     mkCounters consecutive (S (total_attempts c))).
Proof.
  intros H. unfold attempt, new_unique, new_batch, checkpoint_due. rewrite H.
  destruct (filterNew _ _) as [new cache']. cbn [fst snd].
  destruct (target_count <=? _); [done|].
  by destruct (_ =? 3).
Qed.

Lemma attempt_total_attempts w s c flow s' c' :
  attempt w s c = (flow, s', c') → total_attempts c' = S (total_attempts c).
Proof.
  destruct (scroll_raises w (S (total_attempts c))) eqn:E.
  - rewrite attempt_raised by done. by intros [= <- <- <-].
  - rewrite attempt_scrolled by done. by intros [= <- <- <-].
Qed.

Lemma attempt_grown start w s c flow s' c' :
  grown_from start s → attempt w s c = (flow, s', c') → grown_from start s'.
Proof.
  intros (added & Hall & Hids & Hnd & Hfresh & Hcache).
  destruct (scroll_raises w (S (total_attempts c))) eqn:E.
  { rewrite attempt_raised by done. intros [= <- <- <-]. by exists added. }
  rewrite attempt_scrolled by done. intros [= _ <- _].
  destruct (filterNew_new (existing_ids_cache s) (new_batch w s))
    as (Hnew & Hnewnd & Hnewfresh & _).
  fold (new_unique w s) in Hnew, Hnewnd, Hnewfresh.
  assert (∀ k, k ∈ ids_of (new_unique w s) → k ∉ ids_of (all_products s))
    as Hdisj by (intros k Hk Hin; by apply (Hnewfresh k), Hcache).
  exists (added ++ new_unique w s). cbn [all_products existing_ids_cache].
  split; [by rewrite Hall, app_assoc|].
  split; [by apply Forall_app|].
  split.
  { rewrite ids_of_app. apply NoDup_app. split; [done|]. split; [|done].
    intros k Hk Hin. apply (Hdisj k Hin). rewrite Hall, ids_of_app.
    apply elem_of_app. by right. }
  split.
  { intros k. rewrite ids_of_app. intros [Hk|Hk]%elem_of_app; [by apply Hfresh|].
    intros Hin. apply (Hdisj k Hk). rewrite Hall, ids_of_app.
    apply elem_of_app. by left. }
  intros k. rewrite ids_of_app, filterNew_cache_new.
  fold (new_unique w s).
  intros [Hk|Hk]%elem_of_app.
  - apply elem_of_union_r. by apply Hcache.
  - apply elem_of_union_l. by apply elem_of_list_to_set.
Qed.

(** ** The loop *)

Lemma visits_grown start w s0 c0 flow s c :
  grown_from start s0 → visits w s0 c0 flow s c → grown_from start s.
Proof.
  intros H0 Hv. induction Hv as [|s c flow s' c' _ IH _ Hat]; [done|].
  by eapply attempt_grown.
Qed.

(** What [while_loop] returns is a state the loop passes through. *)
Lemma while_loop_visits fuel w s0 c0 s c flow s' c' :
  visits w s0 c0 Continue s c →
  while_loop fuel w s c = Some (flow, s', c') →
  visits w s0 c0 flow s' c'.
Proof.
  revert s c. induction fuel as [|fuel IH]; intros s c Hv; simpl.
  - destruct (loop_guard c); [done|]. by intros [= <- <- <-].
  - destruct (loop_guard c) eqn:Hg; [|by intros [= <- <- <-]].
    destruct (attempt w s c) as [[f1 s1] c1] eqn:Hat.
    assert (visits w s0 c0 f1 s1 c1) as Hv1 by by eapply visits_attempt.
    destruct f1; [by apply IH | by intros [= <- <- <-] ..].
Qed.

Lemma loop_prefix_visits n w s0 c0 :
  visits w s0 c0 (loop_prefix n w s0 c0).1.1 (loop_prefix n w s0 c0).1.2
         (loop_prefix n w s0 c0).2.
Proof.
  assert (∀ s c, visits w s0 c0 Continue s c →
            visits w s0 c0 (loop_prefix n w s c).1.1 (loop_prefix n w s c).1.2
                   (loop_prefix n w s c).2) as Hgen.
  { induction n as [|n IH]; intros s c Hv; simpl; [done|].
    destruct (loop_guard c) eqn:Hg; [|done].
    destruct (attempt w s c) as [[flow s'] c'] eqn:Hat.
    assert (visits w s0 c0 flow s' c') as Hv' by by eapply visits_attempt.
    destruct flow; [by apply IH | done..]. }
  apply Hgen. constructor.
Qed.

Lemma loop_entry_grown w loaded d :
  grown_from (all_products (loop_entry w loaded d)) (loop_entry w loaded d).
Proof.
  exists []. rewrite app_nil_r. repeat split; try constructor.
  - intros k Hk. by apply elem_of_nil in Hk.
  - intros k Hk. unfold loop_entry in *.
    destruct (length loaded =? 0); cbn [all_products existing_ids_cache] in *;
      by apply elem_of_list_to_set.
Qed.

Lemma grown_from_unique start s :
  unique_ids start → grown_from start s → unique_ids (all_products s).
Proof.
  rewrite !unique_ids_NoDup. intros Hs (added & -> & _ & Hnd & Hfresh & _).
  rewrite ids_of_app. apply NoDup_app. split; [done|]. split; [|done].
  intros k Hk Hin. by apply (Hfresh k).
Qed.

Lemma extract_product_data_visits fuel w d ps d' :
  find_scrollable_table_container w = true →
  extract_product_data fuel w d = Some (ps, d') →
  ∃ flow s c,
    visits w (loop_entry w (load_previous_progress w d) d) (mkCounters 0 0) flow s c
    ∧ ps = all_products s.
Proof.
  intros Hc. unfold extract_product_data. rewrite Hc. cbn [negb].
  destruct (while_loop _ _ _ _) as [[[flow s] c]|] eqn:Hloop; [|done].
  intros Hret. exists flow, s, c. split.
  - eapply while_loop_visits; [constructor | done].
  - destruct flow; by injection Hret as <- _.
Qed.

(** C1 on the code: on a fresh start two visible rows with the same id
    both enter the result list, and stay in it to the end.  The filter of
    the polling loop and the filter of the verification block, given the
    same two rows, keep the first only. *)
Theorem C1_initial_rows_not_deduplicated :
  (∃ ps d',
     extract_product_data max_attempts (steady_world duplicate_rows) empty_disk
     = Some (ps, d')
     ∧ ps = [product_of "A1" "bolt" "S1"; product_of "A1" "bolt" "S1"]
     ∧ ¬ unique_ids ps)
  ∧ (filterNew ∅ (extract_current_page_data (Some duplicate_rows))).1
    = [product_of "A1" "bolt" "S1"]
  ∧ (final_filter ∅ (extract_current_page_data (Some duplicate_rows))).1
    = [product_of "A1" "bolt" "S1"].
Proof.
  split; [|split; reflexivity].
  eexists _, _. split; [vm_compute; reflexivity|]. split; [reflexivity|].
  intros H. by specialize (H 0 1 _ _ eq_refl eq_refl eq_refl eq_refl).
Qed.

(** X23.  The polling loop keeps ids unique: if the result list with which
    it starts (the resumed checkpoint, or the rows of the initial
    extraction) holds no two records with the same non-empty id, then no
    state the loop passes through holds two such records, and neither does
    the returned list. *)
Theorem X23_loop_keeps_ids_unique (w : World) (d : Disk) :
  unique_ids (all_products (loop_entry w (load_previous_progress w d) d)) →
  (∀ flow s c,
     visits w (loop_entry w (load_previous_progress w d) d) (mkCounters 0 0)
            flow s c →
     unique_ids (all_products s))
  ∧ (∀ fuel ps d',
       extract_product_data fuel w d = Some (ps, d') → unique_ids ps).
Proof.
  intros Hentry.
  assert (∀ flow s c,
     visits w (loop_entry w (load_previous_progress w d) d) (mkCounters 0 0)
            flow s c →
     unique_ids (all_products s)) as Hloop.
  { intros flow s c Hv. eapply grown_from_unique; [exact Hentry|].
    eapply visits_grown; [apply loop_entry_grown | exact Hv]. }
  split; [exact Hloop|].
  intros fuel ps d' Hret.
  destruct (find_scrollable_table_container w) eqn:Hc.
  - apply extract_product_data_visits in Hret as (flow & s & c & Hv & ->); [|done].
    by eapply Hloop.
  - unfold extract_product_data in Hret. rewrite Hc in Hret.
    injection Hret as <- _. unfold loop_entry in Hentry.
    destruct (load_previous_progress w d) as [|p ps] eqn:Hl; [|done].
    intros i j p q Hp. done.
Qed.

(** X23 on a page that shows the rows A1 and A2. *)
Lemma X23_loop_keeps_ids_unique_witness :
  unique_ids
    (all_products
       (loop_entry (steady_world distinct_rows)
          (load_previous_progress (steady_world distinct_rows) empty_disk)
          empty_disk))
  ∧ ∃ ps d',
      extract_product_data max_attempts (steady_world distinct_rows) empty_disk
      = Some (ps, d')
      ∧ unique_ids ps.
Proof.
  assert (unique_ids
    (all_products
       (loop_entry (steady_world distinct_rows)
          (load_previous_progress (steady_world distinct_rows) empty_disk)
          empty_disk))) as Hentry
    by (apply (@bool_decide_unpack _ (unique_ids_dec _)); vm_compute; exact I).
  split; [exact Hentry|].
  eexists _, _. split; [vm_compute; reflexivity|].
  eapply (proj2 (X23_loop_keeps_ids_unique _ _ Hentry) max_attempts).
  vm_compute. reflexivity.
Defined.

(** ** The initial pass *)

(** Every product the extractor returns has an id or a sku. *)
Lemma extract_current_page_data_valid snapshot p :
  p ∈ extract_current_page_data snapshot →
  truthy (p_id p) || truthy (p_sku p) = true.
Proof.
  destruct snapshot as [rows|]; simpl; [|by intros ?%elem_of_nil].
  intros (r & _ & Hr)%list_elem_of_omap.
  destruct r as [|visible cells]; [done|]. unfold extract_row in Hr.
  destruct visible; [|done]. cbn [negb] in Hr.
  destruct (8 <=? length cells); [|done]. cbv zeta in Hr.
  destruct (truthy (p_id _) || truthy (p_sku _)) eqn:E; [|done].
  injection Hr as <-. exact E.
Qed.

(** C10.  On a fresh start with a scrollable container the result list
    begins with the whole first batch of the extractor, unfiltered; every
    record the polling loop adds after it has a non-empty id that is new;
    so a record without id is one of the first batch (and has a sku).  A
    row with a sku and no id does get in that way. *)
Theorem C10_initial_pass_unfiltered :
  (∀ fuel w d ps d',
     load_previous_progress w d = [] →
     find_scrollable_table_container w = true →
     extract_product_data fuel w d = Some (ps, d') →
     let initial := extract_current_page_data (page w 0) in
     all_products (loop_entry w (load_previous_progress w d) d) = initial
     ∧ ∃ added,
         ps = initial ++ added
         ∧ Forall (λ p, truthy (p_id p) = true) added
         ∧ NoDup (ids_of added)
         ∧ (∀ k, k ∈ ids_of added → k ∉ ids_of initial)
         ∧ (∀ p, p ∈ ps → truthy (p_id p) = false →
                 p ∈ initial ∧ truthy (p_sku p) = true))
  ∧ fst <$> extract_product_data max_attempts (steady_world sku_only_rows) empty_disk
    = Some [product_of "" "washer" "S4"].
Proof.
  split; [|vm_compute; reflexivity].
  intros fuel w d ps d' Hfresh Hc Hret initial.
  assert (all_products (loop_entry w (load_previous_progress w d) d) = initial)
    as Hinit by (by rewrite Hfresh).
  split; [done|].
  apply extract_product_data_visits in Hret as (flow & s & c & Hv & ->); [|done].
  eapply visits_grown in Hv; [|apply loop_entry_grown].
  rewrite Hinit in Hv. destruct Hv as (added & Hall & Hids & Hnd & Hnew & _).
  exists added. repeat split; try done.
  - rewrite Hall in H. apply elem_of_app in H as [H|H]; [done|].
    rewrite Forall_forall in Hids. apply Hids in H. congruence.
  - rewrite Hall in H. apply elem_of_app in H as [H|H].
    + apply extract_current_page_data_valid in H. by rewrite H0 in H.
    + rewrite Forall_forall in Hids. apply Hids in H. congruence.
Qed.

(** C10 on a page whose only row has a sku and no id. *)
Lemma C10_initial_pass_unfiltered_witness :
  load_previous_progress (steady_world sku_only_rows) empty_disk = []
  ∧ find_scrollable_table_container (steady_world sku_only_rows) = true
  ∧ ∃ added,
      [product_of "" "washer" "S4"]
      = extract_current_page_data (page (steady_world sku_only_rows) 0) ++ added
      ∧ Forall (λ p, truthy (p_id p) = true) added.
Proof.
  split; [reflexivity|]. split; [reflexivity|].
  destruct (extract_product_data max_attempts (steady_world sku_only_rows) empty_disk)
    as [[ps d']|] eqn:Hret; [|by vm_compute in Hret].
  assert (ps = [product_of "" "washer" "S4"]) as Hps
    by (vm_compute in Hret; by injection Hret as <- _).
  destruct (proj1 C10_initial_pass_unfiltered max_attempts
              (steady_world sku_only_rows) empty_disk ps d' eq_refl eq_refl Hret)
    as (_ & added & Hall & Hids & _).
  exists added. by rewrite <- Hps.
Defined.

(** ** Termination *)

Lemma while_loop_stopped fuel w s c :
  loop_guard c = false → while_loop fuel w s c = Some (Continue, s, c).
Proof. intros H. destruct fuel; simpl; by rewrite H. Qed.

Lemma loop_guard_false c :
  loop_guard c = false
  ↔ max_no_data_attempts ≤ consecutive_no_new_data c
    ∨ max_attempts ≤ total_attempts c.
Proof.
  unfold loop_guard. rewrite andb_false_iff, !Nat.ltb_ge. done.
Qed.

(** Fuel for the attempts that are left is enough. *)
Lemma while_loop_returns fuel w s c :
  max_attempts - total_attempts c ≤ fuel → is_Some (while_loop fuel w s c).
Proof.
  revert s c. induction fuel as [|fuel IH]; intros s c Hfuel; simpl.
  - destruct (loop_guard c) eqn:Hg; [|done].
    apply andb_true_iff in Hg as [_ Hg%Nat.ltb_lt]. lia.
  - destruct (loop_guard c) eqn:Hg; [|done].
    destruct (attempt w s c) as [[flow s'] c'] eqn:Hat.
    apply attempt_total_attempts in Hat.
    destruct flow; [|done..]. apply IH. lia.
Qed.

(** More fuel does not change the result. *)
Lemma while_loop_more_fuel fuel fuel' w s c r :
  while_loop fuel w s c = Some r → fuel ≤ fuel' → while_loop fuel' w s c = Some r.
Proof.
  revert fuel' s c. induction fuel as [|fuel IH]; intros fuel' s c; simpl.
  - destruct (loop_guard c) eqn:Hg; [done|].
    intros <- _. by apply while_loop_stopped.
  - destruct (loop_guard c) eqn:Hg;
      [|intros <- _; by apply while_loop_stopped].
    intros Hr Hle. destruct fuel' as [|fuel']; [lia|]. simpl. rewrite Hg.
    destruct (attempt w s c) as [[flow s'] c'].
    destruct flow; [|done..]. apply IH; [done | lia].
Qed.

(** The counters stay within their limits, and a loop left through its
    guard has reached one of them. *)
Lemma while_loop_counters fuel w s c flow s' c' :
  consecutive_no_new_data c ≤ max_no_data_attempts →
  total_attempts c ≤ max_attempts →
  while_loop fuel w s c = Some (flow, s', c') →
  consecutive_no_new_data c' ≤ max_no_data_attempts
  ∧ total_attempts c' ≤ max_attempts
  ∧ (flow = Continue →
     consecutive_no_new_data c' = max_no_data_attempts
     ∨ total_attempts c' = max_attempts).
Proof.
  revert s c. induction fuel as [|fuel IH]; intros s c Hc Ht; simpl.
  - destruct (loop_guard c) eqn:Hg; [done|]. intros [= <- <- <-].
    apply loop_guard_false in Hg. lia.
  - destruct (loop_guard c) eqn:Hg.
    2:{ intros [= <- <- <-]. apply loop_guard_false in Hg. lia. }
    apply andb_true_iff in Hg as [Hg1%Nat.ltb_lt Hg2%Nat.ltb_lt].
    destruct (attempt w s c) as [[f1 s1] c1] eqn:Hat.
    assert (consecutive_no_new_data c1 ≤ max_no_data_attempts
            ∧ total_attempts c1 ≤ max_attempts) as [Hc1 Ht1].
    { destruct (scroll_raises w (S (total_attempts c))) eqn:E.
      - rewrite attempt_raised in Hat by done. injection Hat as <- <- <-.
        simpl. lia.
      - rewrite attempt_scrolled in Hat by done. injection Hat as _ _ <-.
        simpl. destruct (_ =? 0); lia. }
    destruct f1; [by apply IH | intros [= <- <- <-] ..]; by repeat split.
Qed.

(** A page that only shows known ids: every attempt comes back empty, and
    the loop gives up after the attempts left to the stall limit. *)
Local Ltac loop_ends_here :=
  eexists _, _, _; split; [reflexivity|];
  cbn [consecutive_no_new_data total_attempts all_products];
  split; [lia | reflexivity].

Lemma while_loop_stalls fuel w s c :
  (∀ k i, i ∈ ids_of (extract_current_page_data (page w k)) →
          i ∈ existing_ids_cache s) →
  max_no_data_attempts - consecutive_no_new_data c ≤ fuel →
  ∃ flow s' c',
    while_loop fuel w s c = Some (flow, s', c')
    ∧ total_attempts c'
      ≤ total_attempts c + (max_no_data_attempts - consecutive_no_new_data c)
    ∧ all_products s' = all_products s.
Proof.
  revert s c. induction fuel as [|fuel IH]; intros s c Hseen Hfuel; simpl.
  - destruct (loop_guard c) eqn:Hg; [|loop_ends_here].
    apply andb_true_iff in Hg as [Hg%Nat.ltb_lt _]. lia.
  - destruct (loop_guard c) eqn:Hg; [|loop_ends_here].
    apply andb_true_iff in Hg as [Hg%Nat.ltb_lt _].
    destruct (scroll_raises w (S (total_attempts c))) eqn:E.
    { rewrite attempt_raised by done. loop_ends_here. }
    rewrite attempt_scrolled by done.
    assert (filterNew (existing_ids_cache s) (new_batch w s)
            = ([], existing_ids_cache s)) as Hnone
      by (apply filterNew_all_seen; intros i; apply Hseen).
    unfold new_unique. rewrite Hnone. cbn [fst snd length Nat.eqb].
    rewrite app_nil_r.
    destruct (target_count <=? _); [loop_ends_here|].
    destruct (_ =? 2);
      [destruct (recovery_raises _ _); [loop_ends_here|]|].
    all: edestruct (IH
           {| all_products := all_products s;
              existing_ids_cache := existing_ids_cache s;
              disk := if checkpoint_due (S (total_attempts c)) 0
                      then save_continuous w (all_products s) (disk s)
                      else disk s;
              extractions := S (extractions s) |}
           (mkCounters (S (consecutive_no_new_data c)) (S (total_attempts c))))
        as (flow & s' & c' & Hloop & Hle & Hall);
      [exact Hseen | cbn [consecutive_no_new_data]; lia |].
    all: exists flow, s', c'; split; [exact Hloop|];
      cbn [consecutive_no_new_data total_attempts all_products] in *;
      split; [lia|done].
Qed.

(** C2.  For every data source the extraction ends: fuel for a hundred
    attempts always yields a result, and more fuel yields the same one.  A
    loop whose stall counter has reached 5 or whose attempt count has reached
    100 makes no further attempt; the loop never counts beyond those limits,
    and when it is left through its guard one of them has been reached.  A
    source that never shows an unseen id ends the loop within five
    attempts, with the result list as it was. *)
Theorem C2_extraction_terminates (w : World) :
  (∀ d fuel, max_attempts ≤ fuel →
     is_Some (extract_product_data max_attempts w d)
     ∧ extract_product_data fuel w d = extract_product_data max_attempts w d)
  ∧ (∀ fuel s c,
       max_no_data_attempts ≤ consecutive_no_new_data c
       ∨ max_attempts ≤ total_attempts c →
       while_loop fuel w s c = Some (Continue, s, c))
  ∧ (∀ fuel s flow s' c',
       while_loop fuel w s (mkCounters 0 0) = Some (flow, s', c') →
       consecutive_no_new_data c' ≤ max_no_data_attempts
       ∧ total_attempts c' ≤ max_attempts
       ∧ (flow = Continue →
          consecutive_no_new_data c' = max_no_data_attempts
          ∨ total_attempts c' = max_attempts))
  ∧ (∀ s,
       (∀ k i, i ∈ ids_of (extract_current_page_data (page w k)) →
               i ∈ existing_ids_cache s) →
       ∃ flow s' c',
         while_loop max_no_data_attempts w s (mkCounters 0 0) = Some (flow, s', c')
         ∧ total_attempts c' ≤ max_no_data_attempts
         ∧ all_products s' = all_products s).
Proof.
  assert (∀ s, is_Some (while_loop max_attempts w s (mkCounters 0 0))) as Hret
    by (intros s; apply while_loop_returns; cbn [total_attempts]; lia).
  split; [|split; [|split]].
  - intros d fuel Hfuel. unfold extract_product_data.
    destruct (find_scrollable_table_container w); [|done]. cbn [negb].
    destruct (Hret (loop_entry w (load_previous_progress w d) d)) as [r Hr].
    rewrite (while_loop_more_fuel _ fuel _ _ _ _ Hr Hfuel), Hr.
    split; [|done]. destruct r as [[flow s] c].
    by destruct flow, (all_products s).
  - intros fuel s c Hc. by apply while_loop_stopped, loop_guard_false.
  - intros fuel s flow s' c' Hloop.
    eapply while_loop_counters; [| |exact Hloop];
      cbn [consecutive_no_new_data total_attempts]; lia.
  - intros s Hseen.
    destruct (while_loop_stalls max_no_data_attempts w s (mkCounters 0 0))
      as (flow & s' & c' & Hloop & Hle & Hall);
      [done | cbn [consecutive_no_new_data]; lia |].
    exists flow, s', c'. cbn [consecutive_no_new_data total_attempts] in Hle.
    split; [done|]. split; [lia | done].
Qed.

(** C2 on a page that keeps showing the rows A1 and A2: after the initial
    extraction every attempt comes back empty. *)
Lemma C2_extraction_terminates_witness :
  let w := steady_world distinct_rows in
  let s := loop_entry w [] empty_disk in
  max_attempts ≤ 250
  ∧ extract_product_data 250 w empty_disk
    = extract_product_data max_attempts w empty_disk
  ∧ (∀ k i, i ∈ ids_of (extract_current_page_data (page w k)) →
            i ∈ existing_ids_cache s)
  ∧ ∃ flow s' c',
      while_loop max_no_data_attempts w s (mkCounters 0 0) = Some (flow, s', c')
      ∧ total_attempts c' ≤ max_no_data_attempts
      ∧ all_products s' = all_products s.
Proof.
  intros w s.
  assert (max_attempts ≤ 250) as Hfuel by (unfold max_attempts; lia).
  assert (∀ k i, i ∈ ids_of (extract_current_page_data (page w k)) →
                 i ∈ existing_ids_cache s) as Hseen
    by (intros k i Hi; by apply elem_of_list_to_set).
  destruct (C2_extraction_terminates w) as (Hends & _ & _ & Hstall).
  split; [exact Hfuel|].
  split; [exact (proj2 (Hends empty_disk 250 Hfuel))|].
  split; [exact Hseen | exact (Hstall s Hseen)].
Defined.

(** ** Checkpoints inside the loop *)

Lemma saves_write_file w name data d d' :
  write_file w name data d = Some d' → saves d' = saves d.
Proof. unfold write_file. destruct (writable w name); [|done]. by intros [= <-]. Qed.

Lemma saves_failed_write w name d : saves (failed_write w name d) = saves d.
Proof. unfold failed_write. by destruct (truncates w name). Qed.

Lemma saves_try_write w name data d : saves (try_write w name data d) = saves d.
Proof.
  unfold try_write. destruct (write_file w name data d) eqn:E.
  - by apply saves_write_file in E.
  - apply saves_failed_write.
Qed.

Lemma saves_save_continuous w products d :
  saves (save_continuous w products d) = saves d ++ [length products].
Proof.
  unfold save_continuous.
  destruct (write_file w temp_file _ _) as [d1|] eqn:E1.
  - apply saves_write_file in E1.
    destruct (write_file w (backup_name _) _ d1) as [d2|] eqn:E2.
    + apply saves_write_file in E2. by rewrite E2, E1.
    + by rewrite saves_try_write, saves_failed_write, E1.
  - by rewrite saves_try_write, saves_failed_write.
Qed.

(** C3 on the code: when an attempt brings the result list to the target
    count, the first test of line 635 leaves the loop at once.  The table
    has been read once in that attempt and the list holds what that one
    batch added; the verification block that follows the test is never
    entered. *)
Theorem C3_target_reached_leaves_at_once (w : World) (s : Scraper) (c : Counters)
    (fuel : nat) :
  loop_guard c = true →
  scroll_raises w (S (total_attempts c)) = false →
  (target_count <=? length (all_products s ++ new_unique w s)) = true →
  while_loop (S fuel) w s c = Some (attempt w s c)
  ∧ (attempt w s c).1.1 = Break
  ∧ all_products (attempt w s c).1.2 = all_products s ++ new_unique w s
  ∧ extractions (attempt w s c).1.2 = S (extractions s)
  ∧ total_attempts (attempt w s c).2 = S (total_attempts c).
Proof.
  intros Hg Hscroll Htarget. simpl. rewrite Hg.
  rewrite attempt_scrolled by done. cbn zeta. by rewrite Htarget.
Qed.

(** C3 on a resumed list of 3300 products and a table that has a new row
    at every read: the first attempt reaches 3301 and the loop is left. *)
Lemma C3_target_reached_leaves_at_once_witness :
  let w := late_rows_world in
  let s := loop_entry w (load_previous_progress w resumed_disk) resumed_disk in
  let c := mkCounters 0 0 in
  loop_guard c = true
  ∧ scroll_raises w 1 = false
  ∧ (target_count <=? length (all_products s ++ new_unique w s)) = true
  ∧ while_loop max_attempts w s c = Some (attempt w s c)
  ∧ (attempt w s c).1.1 = Break.
Proof.
  intros w s c.
  assert ((target_count <=? length (all_products s ++ new_unique w s)) = true)
    as Htarget by (vm_compute; reflexivity).
  destruct (C3_target_reached_leaves_at_once w s c 99 eq_refl eq_refl Htarget)
    as (Hloop & Hbreak & _).
  split; [reflexivity|]. split; [reflexivity|]. split; [exact Htarget|].
  split; [exact Hloop | exact Hbreak].
Defined.

(** ** File names *)

Lemma string_app_length (s u : string) :
  String.length (s +:+ u) = String.length s + String.length u.
Proof.
  induction s as [|a s IH]; [done|].
  change (S (String.length (s +:+ u)) = S (String.length s + String.length u)).
  by rewrite IH.
Qed.

Lemma string_app_inj_r (s1 s2 t : string) : s1 +:+ t = s2 +:+ t → s1 = s2.
Proof.
  revert s2. induction s1 as [|a s1 IH]; intros [|b s2] Heq.
  - done.
  - apply (f_equal String.length) in Heq.
    rewrite !string_app_length in Heq. simpl in Heq. lia.
  - apply (f_equal String.length) in Heq.
    rewrite !string_app_length in Heq. simpl in Heq. lia.
  - change (String a (s1 +:+ t) = String b (s2 +:+ t)) in Heq.
    injection Heq as -> Heq. f_equal. by apply IH.
Qed.

Lemma backup_name_inj (n m : nat) : backup_name n = backup_name m ↔ n = m.
Proof.
  split; [|by intros ->]. unfold backup_name. intros H.
  apply String.app_inj, string_app_inj_r in H. by apply (inj pretty).
Qed.

Lemma backup_name_not_temp n : backup_name n ≠ temp_file.
Proof. unfold backup_name, temp_file. simpl. discriminate. Qed.

Lemma backup_name_not_output n : backup_name n ≠ output_file.
Proof. unfold backup_name, output_file. simpl. discriminate. Qed.

Lemma emergency_name_not_output t : emergency_name t ≠ output_file.
Proof. unfold emergency_name, output_file. simpl. discriminate. Qed.

(** ** Writes *)

Lemma write_file_lookup w name data d d' other :
  write_file w name data d = Some d' → other ≠ name →
  files d' !! other = files d !! other.
Proof.
  unfold write_file. destruct (writable w name); [|done]. intros [= <-] Hne.
  simpl. by apply lookup_insert_ne.
Qed.

Lemma failed_write_lookup w name d other :
  other ≠ name → files (failed_write w name d) !! other = files d !! other.
Proof.
  intros Hne. unfold failed_write. destruct (truncates w name); [|done].
  cbn [files]. by apply lookup_insert_ne.
Qed.

Lemma try_write_lookup w name data d other :
  other ≠ name → files (try_write w name data d) !! other = files d !! other.
Proof.
  intros Hne. unfold try_write.
  destruct (write_file w name data d) eqn:E; simpl.
  - by eapply write_file_lookup.
  - by apply failed_write_lookup.
Qed.

(** A checkpoint touches the temp file, the backup of its total and, when a
    write fails, the emergency file; nothing else. *)
Lemma save_continuous_lookup w products d other :
  other ≠ temp_file → other ≠ backup_name (length products) →
  other ≠ emergency_name (now w) →
  files (save_continuous w products d) !! other = files d !! other.
Proof.
  intros Ht Hb He. unfold save_continuous.
  destruct (write_file w temp_file _ _) as [d1|] eqn:E1.
  - apply (write_file_lookup _ _ _ _ _ other) in E1; [|done].
    destruct (write_file w (backup_name _) _ d1) as [d2|] eqn:E2.
    + apply (write_file_lookup _ _ _ _ _ other) in E2; [|done]. by rewrite E2, E1.
    + by rewrite try_write_lookup, failed_write_lookup, E1.
  - by rewrite try_write_lookup, failed_write_lookup.
Qed.

(** A checkpoint whose two writes succeed. *)
Lemma save_continuous_written w products d :
  writable w temp_file = true →
  writable w (backup_name (length products)) = true →
  let snapshot := Checkpoint (now w) (length products) in_progress products in
  save_continuous w products d
  = {| files := <[backup_name (length products) := snapshot]>
                  (<[temp_file := snapshot]> (files d));
       written := written d ++ [temp_file; backup_name (length products)];
       saves := saves d ++ [length products] |}.
Proof.
  intros Ht Hb. unfold save_continuous, write_file. rewrite Ht. simpl.
  rewrite Hb. simpl. by rewrite <- app_assoc.
Qed.

Lemma emergency_name_not_temp t : emergency_name t ≠ temp_file.
Proof. unfold emergency_name, temp_file. simpl. discriminate. Qed.

Lemma write_file_written w name data d d' :
  write_file w name data d = Some d' →
  writable w name = true
  ∧ files d' = <[name := data]> (files d)
  ∧ written d' = written d ++ [name].
Proof.
  unfold write_file. destruct (writable w name); [|done]. by intros [= <-].
Qed.

Lemma write_file_refused w name data d :
  write_file w name data d = None ↔ writable w name = false.
Proof. unfold write_file. by destruct (writable w name). Qed.

(** The temp file after a checkpoint whose first write succeeds. *)
Lemma save_continuous_temp w products d :
  writable w temp_file = true →
  files (save_continuous w products d) !! temp_file
  = Some (Checkpoint (now w) (length products) in_progress products).
Proof.
  intros Ht. unfold save_continuous.
  destruct (write_file w temp_file _ _) as [d1|] eqn:E1.
  2:{ apply write_file_refused in E1. cbn in E1. congruence. }
  apply write_file_written in E1 as (_ & Hf1 & _).
  assert (files d1 !! temp_file
          = Some (Checkpoint (now w) (length products) in_progress products))
    as Hd1 by (rewrite Hf1; apply lookup_insert_eq).
  destruct (write_file w (backup_name _) _ d1) as [d2|] eqn:E2.
  - apply write_file_written in E2 as (_ & -> & _).
    rewrite lookup_insert_ne; [done | apply backup_name_not_temp].
  - rewrite try_write_lookup, failed_write_lookup; [done|..].
    + intros H. symmetry in H. by apply backup_name_not_temp in H.
    + intros H. symmetry in H. by apply emergency_name_not_temp in H.
Qed.

(** C9, what does not hold: a page that shows nothing makes seven
    checkpoint events (the initial one, five stalled attempts, the final
    one), all with the running total 0, and each of them writes
    progress_backup_0.json again. *)
Lemma C9_same_total_same_backup_file :
  ∃ ps d',
    extract_product_data max_attempts (steady_world []) empty_disk = Some (ps, d')
    ∧ saves d' = [0; 0; 0; 0; 0; 0; 0]
    ∧ filter (λ name, name ≠ temp_file) (written d')
      = replicate 7 "progress_backup_0.json"
    ∧ ¬ NoDup (backup_name <$> saves d').
Proof.
  eexists _, _. split; [vm_compute; reflexivity|].
  split; [reflexivity|]. split; [vm_compute; reflexivity|].
  cbn [saves fmap list_fmap]. intros Hnd.
  apply NoDup_cons_1_1 in Hnd. apply Hnd. left.
Qed.

(** C9, amended.  A checkpoint event whose writes succeed writes
    progress_backup_<count>.json, named by the running total, holding the
    snapshot of that event.  It leaves the backup of every other total as
    it was; two events write the same backup file exactly when their totals
    are equal, so an earlier backup is overwritten by a later event with the
    same total and by no other. *)
Theorem C9_backup_named_by_total (w : World) (products : list Product) (d : Disk) :
  writable w temp_file = true →
  writable w (backup_name (length products)) = true →
  let d' := save_continuous w products d in
  let snapshot := Checkpoint (now w) (length products) in_progress products in
  files d' !! backup_name (length products) = Some snapshot
  ∧ written d' = written d ++ [temp_file; backup_name (length products)]
  ∧ saves d' = saves d ++ [length products]
  ∧ (∀ n, n ≠ length products →
          files d' !! backup_name n = files d !! backup_name n)
  ∧ (∀ n, backup_name n = backup_name (length products) ↔ n = length products).
Proof.
  intros Ht Hb d' snapshot. subst d'.
  rewrite save_continuous_written by done. cbn [files written saves].
  split; [apply lookup_insert_eq|]. split; [done|]. split; [done|].
  split; [|intros n; apply backup_name_inj].
  intros n Hn. rewrite !lookup_insert_ne; [done|..].
  - intros Heq. symmetry in Heq. by apply backup_name_not_temp in Heq.
  - intros Heq. apply backup_name_inj in Heq. congruence.
Qed.

(** C9 on one checkpoint of two products written to an empty disk. *)
Lemma C9_backup_named_by_total_witness :
  let w := steady_world distinct_rows in
  writable w temp_file = true
  ∧ writable w (backup_name 2) = true
  ∧ files (save_continuous w small_checkpoint empty_disk) !! "progress_backup_2.json"
    = Some (Checkpoint 1700000000 2 in_progress small_checkpoint)
  ∧ written (save_continuous w small_checkpoint empty_disk)
    = ["temp_products.json"; "progress_backup_2.json"].
Proof.
  intros w. split; [reflexivity|]. split; [reflexivity|].
  destruct (C9_backup_named_by_total w small_checkpoint empty_disk eq_refl eq_refl)
    as (Hfile & Hwritten & _).
  split; [exact Hfile | exact Hwritten].
Defined.

(** C8, what does not hold: the fifth attempt on a page that shows nothing
    raises in its scroll burst.  The loop has come that far with the guard
    true, 5 is a multiple of 5, and the attempt leaves the disk as it was;
    the list being empty, nothing is written afterwards either, so the run
    ends with the five checkpoints of the initial extraction and of
    attempts 1 to 4. *)
Lemma C8_raising_attempt_writes_no_checkpoint :
  ∃ s c,
    visits raising_fifth_world (loop_entry raising_fifth_world [] empty_disk)
           (mkCounters 0 0) Continue s c
    ∧ loop_guard c = true
    ∧ S (total_attempts c) = 5
    ∧ S (total_attempts c) mod 5 = 0
    ∧ disk (attempt raising_fifth_world s c).1.2 = disk s
    ∧ ∃ d',
        extract_product_data max_attempts raising_fifth_world empty_disk
        = Some ([], d')
        ∧ saves d' = [0; 0; 0; 0; 0].
Proof.
  pose proof (loop_prefix_visits 4 raising_fifth_world
                (loop_entry raising_fifth_world [] empty_disk) (mkCounters 0 0))
    as Hv.
  assert ((loop_prefix 4 raising_fifth_world
             (loop_entry raising_fifth_world [] empty_disk) (mkCounters 0 0)).1.1
          = Continue) as Hflow by (vm_compute; reflexivity).
  rewrite Hflow in Hv.
  eexists _, _. split; [exact Hv|].
  split; [vm_compute; reflexivity|]. split; [vm_compute; reflexivity|].
  split; [vm_compute; reflexivity|]. split; [vm_compute; reflexivity|].
  eexists. split; vm_compute; reflexivity.
Qed.

(** C8, amended.  In an attempt that gets past its scroll burst, and so
    reads a batch, a checkpoint is written exactly when the attempt number
    is a multiple of 5 or the batch brought no new record: the temp file
    and the numbered backup then hold the snapshot of the list (each if it
    can be written); otherwise the disk is left as it was.  An attempt
    whose scroll burst raises writes nothing, whatever its number, and
    ends the loop. *)
Theorem C8_checkpoint_rule (w : World) (s : Scraper) (c : Counters) :
  let n := S (total_attempts c) in
  let new_count := length (new_unique w s) in
  let s' := (attempt w s c).1.2 in
  let snapshot :=
    Checkpoint (now w) (length (all_products s')) in_progress (all_products s') in
  (scroll_raises w n = true →
   (attempt w s c).1.1 = Raise ∧ disk s' = disk s)
  ∧ (scroll_raises w n = false →
     ((n mod 5 = 0 ∨ new_count = 0)
      ↔ saves (disk s') = saves (disk s) ++ [length (all_products s')])
     ∧ ((n mod 5 = 0 ∨ new_count = 0) →
        disk s' = save_continuous w (all_products s') (disk s)
        ∧ (writable w temp_file = true →
           files (disk s') !! temp_file = Some snapshot)
        ∧ (writable w temp_file = true →
           writable w (backup_name (length (all_products s'))) = true →
           files (disk s') !! backup_name (length (all_products s'))
           = Some snapshot
           ∧ written (disk s')
             = written (disk s)
               ++ [temp_file; backup_name (length (all_products s'))]))
     ∧ (¬ (n mod 5 = 0 ∨ new_count = 0) ↔ disk s' = disk s)).
Proof.
  intros n new_count s' snapshot. split.
  { intros Hraise. subst s'. rewrite attempt_raised by done. by split. }
  intros Hscroll. subst s' snapshot. rewrite attempt_scrolled by done.
  cbn [fst snd disk all_products]. fold n new_count.
  assert (checkpoint_due n new_count = true ↔ n mod 5 = 0 ∨ new_count = 0) as Hdue.
  { unfold checkpoint_due. by rewrite orb_true_iff, !Nat.eqb_eq. }
  destruct (checkpoint_due n new_count).
  - assert (n mod 5 = 0 ∨ new_count = 0) as Hyes by by apply Hdue.
    rewrite saves_save_continuous. split; [done|]. split.
    + intros _. split; [done|]. split.
      * intros Ht. by apply save_continuous_temp.
      * intros Ht Hb. rewrite save_continuous_written by done.
        cbn [files written]. by rewrite lookup_insert_eq.
    + split; [done|]. intros Heq.
      apply (f_equal (λ d, length (saves d))) in Heq.
      rewrite saves_save_continuous, length_app in Heq. simpl in Heq. lia.
  - assert (¬ (n mod 5 = 0 ∨ new_count = 0)) as Hno
      by (intros H; by apply Hdue in H).
    split; [|split; [done|done]]. split; [done|].
    intros Heq. apply (f_equal length) in Heq.
    rewrite length_app in Heq. simpl in Heq. lia.
Qed.

(** C8 on the first attempt after the initial extraction of A1 and A2: the
    batch is empty, so a second checkpoint with total 2 follows the initial
    one and the temp file holds the two products. *)
Lemma C8_checkpoint_rule_witness :
  let w := steady_world distinct_rows in
  let s := loop_entry w [] empty_disk in
  scroll_raises w 1 = false
  ∧ writable w temp_file = true
  ∧ saves (disk s) = [2]
  ∧ saves (disk (attempt w s (mkCounters 0 0)).1.2) = [2; 2]
  ∧ files (disk (attempt w s (mkCounters 0 0)).1.2) !! temp_file
    = Some (Checkpoint 1700000000 2 in_progress small_checkpoint).
Proof.
  intros w s. split; [reflexivity|]. split; [reflexivity|].
  split; [reflexivity|].
  destruct (proj2 (C8_checkpoint_rule w s (mkCounters 0 0)) eq_refl)
    as (Hiff & Hwrite & _).
  assert (1 mod 5 = 0 ∨ length (new_unique w s) = 0) as Hdue
    by (right; reflexivity).
  split; [exact (proj1 Hiff Hdue)|].
  exact (proj1 (proj2 (Hwrite Hdue)) eq_refl).
Defined.

(** ** The final artifact *)

Lemma save_continuous_output w products d :
  files (save_continuous w products d) !! output_file = files d !! output_file.
Proof.
  apply save_continuous_lookup.
  - done.
  - intros H. symmetry in H. by apply backup_name_not_output in H.
  - intros H. symmetry in H. by apply emergency_name_not_output in H.
Qed.




(** [run], once the extraction has been reached and has returned. *)
Lemma run_after_extraction fuel w d d1 :
  reaches_extraction w d = Some d1 →
  run fuel w d =
    match extract_product_data fuel w d1 with
    | None => None
    | Some ([], d2) => Some (false, d2)
    | Some (products, d2) => Some (true, save_final_data w products d2)
    end.
Proof.
  unfold reaches_extraction, run.
  destruct (startup_raises w); [done|].
  destruct (launch_challenge w), (navigate_to_product_table w);
    cbn [andb negb]; try done.
  - destruct (negb (load_session w d) || negb (check_authentication w)).
    + destruct (authenticate w); cbn [negb]; [|done]. by intros [= <-].
    + by intros [= <-].
Qed.



(** The disk [extract_product_data] hands back when the container was
    found and the list is not empty: the last thing done to it is a
    checkpoint of the returned list. *)
Lemma extract_product_data_last_save fuel w d ps d' :
  find_scrollable_table_container w = true →
  extract_product_data fuel w d = Some (ps, d') →
  ps ≠ [] →
  ∃ d0, d' = save_continuous w ps d0.
Proof.
  intros Hc. unfold extract_product_data. rewrite Hc. cbn [negb].
  destruct (while_loop _ _ _ _) as [[[flow s] c]|]; [|done].
  destruct flow; intros [= <- <-] Hps; try by eexists.
  destruct (all_products s); [done | by eexists].
Qed.










(** C5 on the code: when no scrollable container is found, [run] reports
    failure only if the result list is empty.  After a resume the list holds
    the products of the checkpoint, so [run] writes them out as the final
    artifact and reports success. *)
Theorem C5_missing_container_outcome (fuel : nat) (w : World) (d d1 : Disk) :
  find_scrollable_table_container w = false →
  reaches_extraction w d = Some d1 →
  (load_previous_progress w d1 = [] → run fuel w d = Some (false, d1))
  ∧ (load_previous_progress w d1 ≠ [] →
     run fuel w d
     = Some (true, save_final_data w (load_previous_progress w d1) d1)).
Proof.
  intros Hc Hreach. rewrite (run_after_extraction _ _ _ _ Hreach).
  unfold extract_product_data. rewrite Hc. cbn [negb].
  split; [by intros ->|]. by destruct (load_previous_progress w d1).
Qed.

(** C5 on a resumed checkpoint of two products and a page without a
    scrollable container: the run reports success. *)
Lemma C5_missing_container_outcome_witness :
  find_scrollable_table_container no_container_world = false
  ∧ reaches_extraction no_container_world small_resumed_disk
    = Some (save_session no_container_world small_resumed_disk)
  ∧ ∃ d', run max_attempts no_container_world small_resumed_disk = Some (true, d')
          ∧ files d' !! output_file
            = Some (Checkpoint 1700000000 2 completed small_checkpoint).
Proof.
  split; [reflexivity|]. split; [reflexivity|].
  destruct (C5_missing_container_outcome max_attempts no_container_world
              small_resumed_disk
              (save_session no_container_world small_resumed_disk)
              eq_refl eq_refl) as [_ Hresumed].
  eexists. split; [apply Hresumed; by vm_compute|]. vm_compute. reflexivity.
Defined.

(** * Further properties of the code *)

(** ** The row extractor *)

Lemma cell_value_not_empty (c : option string) : cell_value c ≠ Some "".
Proof.
  unfold cell_value. destruct (truthy c) eqn:E; [|done].
  intros ->. by vm_compute in E.
Qed.

Lemma nth_cell_not_empty (cells : list (option string)) (i : nat) :
  nth_cell (cell_value <$> cells) i ≠ Some "".
Proof.
  unfold nth_cell. rewrite list_lookup_fmap.
  destruct (cells !! i) as [c|]; [apply cell_value_not_empty | done].
Qed.

(** X1.  Every product the extractor returns has a non-empty id or a
    non-empty sku, and none of its nine fields is the empty text: a cell
    whose text is empty after stripping, or whose read raises, becomes
    [None]. *)
Theorem X1_extracted_products_well_formed (snapshot : option (list Row))
    (p : Product) :
  p ∈ extract_current_page_data snapshot →
  (truthy (p_id p) = true ∨ truthy (p_sku p) = true)
  ∧ ∀ v, v ∈ values p → v ≠ Some "".
Proof.
  intros Hin. split.
  { apply extract_current_page_data_valid in Hin. by apply orb_true_iff. }
  destruct snapshot as [rows|]; [|by apply elem_of_nil in Hin].
  apply list_elem_of_omap in Hin as (r & _ & Hr).
  destruct r as [|visible cells]; [done|]. unfold extract_row in Hr.
  destruct visible; [|done]. cbn [negb] in Hr.
  destruct (8 <=? length cells); [|done]. cbv zeta in Hr.
  destruct (truthy _ || truthy _); [|done]. injection Hr as <-.
  intros v Hv. unfold values in Hv. cbn [p_id p_description p_stock p_color
    p_price p_sku p_manufacturer p_item p_size] in Hv.
  repeat (apply elem_of_cons in Hv as [->|Hv]);
    try apply nth_cell_not_empty; [|by apply elem_of_nil in Hv].
  destruct (8 <? _); [apply nth_cell_not_empty | done].
Qed.

Lemma X1_extracted_products_well_formed_witness :
  product_of "" "washer" "S4" ∈ extract_current_page_data (Some sku_only_rows)
  ∧ truthy (p_sku (product_of "" "washer" "S4")) = true
  ∧ p_id (product_of "" "washer" "S4") ≠ Some "".
Proof.
  assert (product_of "" "washer" "S4"
          ∈ extract_current_page_data (Some sku_only_rows)) as Hin
    by (vm_compute; left).
  destruct (X1_extracted_products_well_formed _ _ Hin) as [_ Hfields].
  split; [exact Hin|]. split; [reflexivity|].
  apply Hfields. left.
Defined.

Lemma extract_row_skipped (r : Row) : skipped_row r → extract_row r = None.
Proof.
  destruct r as [|visible cells]; [done|]. intros [->|Hshort]; [done|].
  unfold extract_row. destruct visible; [|done]. cbn [negb].
  by rewrite (proj2 (Nat.leb_gt 8 (length cells))).
Qed.

(** X2.  Rows are extracted one by one: the products of a table are those
    of its first rows followed by those of the rest, a row that raises, is
    hidden or has fewer than eight cells contributes nothing and does not
    disturb its neighbours, and there are never more products than rows. *)
Theorem X2_rows_extracted_independently :
  (∀ rows1 rows2,
     extract_current_page_data (Some (rows1 ++ rows2))
     = extract_current_page_data (Some rows1)
       ++ extract_current_page_data (Some rows2))
  ∧ (∀ rows1 r rows2,
       skipped_row r →
       extract_current_page_data (Some (rows1 ++ r :: rows2))
       = extract_current_page_data (Some (rows1 ++ rows2)))
  ∧ (∀ rows, length (extract_current_page_data (Some rows)) ≤ length rows).
Proof.
  assert (∀ rows1 rows2,
     extract_current_page_data (Some (rows1 ++ rows2))
     = extract_current_page_data (Some rows1)
       ++ extract_current_page_data (Some rows2)) as Happ
    by (intros; apply omap_app).
  split; [exact Happ|]. split.
  - intros rows1 r rows2 Hr. rewrite !Happ. f_equal.
    simpl. by rewrite extract_row_skipped.
  - intros rows. unfold extract_current_page_data.
    induction rows as [|r rows IH]; [done|]. cbn [omap list_omap].
    destruct (extract_row r); cbn [length]; lia.
Qed.

Lemma X2_rows_extracted_independently_witness :
  skipped_row (RowCells true [Some "A9"; Some "short row"])
  ∧ extract_current_page_data
      (Some ([row_of "A1" "bolt" "S1"]
             ++ RowCells true [Some "A9"; Some "short row"]
             :: [row_of "A2" "nut" "S2"]))
    = small_checkpoint.
Proof.
  assert (skipped_row (RowCells true [Some "A9"; Some "short row"])) as Hr
    by (right; cbn [length]; lia).
  split; [exact Hr|].
  rewrite (proj1 (proj2 X2_rows_extracted_independently) _ _ _ Hr).
  reflexivity.
Defined.

(** X3.  Only the first nine cells of a row are read, and the ninth is
    optional: a row of exactly eight cells gives a product without size. *)
Theorem X3_ninth_cell_optional :
  (∀ visible cells,
     extract_row (RowCells visible cells)
     = extract_row (RowCells visible (take 9 cells)))
  ∧ (∀ visible cells p,
       length cells = 8 →
       extract_row (RowCells visible cells) = Some p → p_size p = None)
  ∧ (∀ visible cells c p,
       cells !! 8 = Some c →
       extract_row (RowCells visible cells) = Some p →
       p_size p = cell_value c).
Proof.
  split; [|split].
  - intros visible cells. unfold extract_row.
    rewrite take_take, Nat.min_id, length_take.
    destruct (decide (8 ≤ length cells)) as [Hlen|Hlen].
    + by rewrite !(proj2 (Nat.leb_le _ _)) by lia.
    + by rewrite !(proj2 (Nat.leb_gt _ _)) by lia.
  - intros visible cells p Hlen. unfold extract_row.
    destruct visible; [|done]. cbn [negb]. rewrite Hlen. cbn [Nat.leb].
    cbv zeta. rewrite length_fmap, length_take, Hlen. cbn [Nat.min Nat.ltb Nat.leb].
    destruct (_ || _); [|done]. by intros [= <-].
  - intros visible cells c p Hc. unfold extract_row.
    destruct visible; [|done]. cbn [negb].
    assert (8 < length cells) as Hlen by (by eapply lookup_lt_Some).
    rewrite (proj2 (Nat.leb_le 8 (length cells))) by lia. cbv zeta.
    rewrite length_fmap, length_take.
    rewrite (proj2 (Nat.ltb_lt 8 (9 `min` length cells))) by lia.
    destruct (_ || _); [|done]. intros [= <-]. cbn [p_size].
    unfold nth_cell. by rewrite list_lookup_fmap, lookup_take_lt, Hc by lia.
Qed.

Lemma X3_ninth_cell_optional_witness :
  extract_row (row_of "A1" "bolt" "S1") = Some (product_of "A1" "bolt" "S1")
  ∧ p_size (product_of "A1" "bolt" "S1") = None.
Proof.
  assert (extract_row (row_of "A1" "bolt" "S1")
          = Some (product_of "A1" "bolt" "S1")) as Hrow by reflexivity.
  split; [exact Hrow|].
  exact (proj1 (proj2 X3_ninth_cell_optional) true
           [Some "A1"; Some "bolt"; None; None; None; Some "S1"; None; None]
           (product_of "A1" "bolt" "S1") eq_refl Hrow).
Defined.

(** ** The duplicate filter *)

(** X4.  The test [any(product.values())] of line 599 never rejects a
    record: one with a non-empty id passes it.  The filter of the polling
    loop and the filter of the verification block, which has no such test,
    are the same function. *)
Theorem X4_any_test_is_redundant (cache : gset string) (batch : list Product) :
  final_filter cache batch = filterNew cache batch
  ∧ Forall (λ p, any_values p = true) (filterNew cache batch).1.
Proof.
  split.
  - revert cache. induction batch as [|p rest IH]; intros cache; [done|].
    cbn [final_filter filterNew]. destruct (p_id p) as [k|] eqn:Hid; [|apply IH].
    destruct (truthy (Some k)) eqn:Ht; [|apply IH]. cbn [andb].
    rewrite (truthy_any_values p) by (by rewrite Hid).
    rewrite andb_true_r. destruct (negb _); [|apply IH]. by rewrite IH.
  - destruct (filterNew_new cache batch) as [Hall _].
    eapply Forall_impl; [exact Hall|]. intros p. apply truthy_any_values.
Qed.

(** X5.  The filter only selects: what it returns is the batch with some
    records left out, in the order of the batch. *)
Theorem X5_filterNew_selects_in_order (cache : gset string) (batch : list Product) :
  (filterNew cache batch).1 `sublist_of` batch
  ∧ length (filterNew cache batch).1 ≤ length batch.
Proof.
  assert ((filterNew cache batch).1 `sublist_of` batch) as Hsub.
  { revert cache. induction batch as [|p rest IH]; intros cache; [done|].
    destruct (product_cases cache p) as [(k&?&?&?&_)|[(k&?&?&?&_)|[? _]]].
    - rewrite (filterNew_cons_keep _ _ k) by done. by apply sublist_skip.
    - rewrite (filterNew_cons_seen _ _ k) by done. by apply sublist_cons.
    - rewrite filterNew_cons_no_id by done. by apply sublist_cons. }
  split; [exact Hsub | by apply sublist_length].
Qed.

(** X6.  Filtering two batches one after the other, with the cache handed
    on, gives what filtering their concatenation gives: how the rows are
    cut into polls does not change what is collected. *)
Theorem X6_filterNew_of_consecutive_batches (cache : gset string)
    (batch1 batch2 : list Product) :
  filterNew cache (batch1 ++ batch2)
  = ((filterNew cache batch1).1
       ++ (filterNew (filterNew cache batch1).2 batch2).1,
     (filterNew (filterNew cache batch1).2 batch2).2).
Proof.
  revert cache. induction batch1 as [|p rest IH]; intros cache.
  - simpl. by destruct (filterNew cache batch2).
  - rewrite <- app_comm_cons.
    destruct (product_cases cache p) as [(k&?&?&?&_)|[(k&?&?&?&_)|[? _]]].
    + rewrite !(filterNew_cons_keep _ _ k) by done. by rewrite IH.
    + rewrite !(filterNew_cons_seen _ _ k) by done. apply IH.
    + rewrite !filterNew_cons_no_id by done. apply IH.
Qed.

(** X7.  How many records a batch adds depends only on which ids it shows:
    it is the number of different non-empty ids of the batch that are not
    in the cache, whatever the order and the repetitions of the rows. *)
Theorem X7_new_count_is_number_of_unseen_ids (cache : gset string)
    (batch : list Product) :
  length (filterNew cache batch).1
  = size (list_to_set (ids_of batch) ∖ cache : gset string)
  ∧ (list_to_set (ids_of (filterNew cache batch).1) : gset string)
    = list_to_set (ids_of batch) ∖ cache.
Proof.
  destruct (filterNew_new cache batch) as (Hall & Hnd & Hfresh & _).
  assert ((list_to_set (ids_of (filterNew cache batch).1) : gset string)
          = list_to_set (ids_of batch) ∖ cache) as Hset.
  { pose proof (filterNew_cache cache batch) as H1.
    rewrite filterNew_cache_new in H1.
    apply set_eq. intros k. rewrite elem_of_difference, !elem_of_list_to_set.
    split.
    - intros Hk. split; [|by apply Hfresh].
      assert (k ∈ (list_to_set (ids_of batch) ∪ cache : gset string)) as Hin
        by (rewrite <- H1; apply elem_of_union_l; by apply elem_of_list_to_set).
      apply elem_of_union in Hin as [Hin|Hin]; [by apply elem_of_list_to_set in Hin|].
      by apply Hfresh in Hk.
    - intros [Hk Hnot].
      assert (k ∈ (list_to_set (ids_of (filterNew cache batch).1) ∪ cache
                   : gset string)) as Hin
        by (rewrite H1; apply elem_of_union_l; by apply elem_of_list_to_set).
      apply elem_of_union in Hin as [Hin|Hin]; [by apply elem_of_list_to_set in Hin|].
      done. }
  split; [|exact Hset].
  rewrite <- Hset, size_list_to_set by done.
  clear Hnd Hfresh Hset. induction Hall as [|p ps Hp _ IH]; [done|].
  unfold ids_of in *. cbn [omap list_omap]. unfold id_key at 1. rewrite Hp.
  destruct (p_id p); [|done]. simpl. by rewrite IH.
Qed.

(** ** Checkpoints on disk *)

Lemma emergency_name_not_backup t n : emergency_name t ≠ backup_name n.
Proof. unfold emergency_name, backup_name. simpl. discriminate. Qed.

Lemma emergency_name_not_session t : emergency_name t ≠ session_file.
Proof. unfold emergency_name, session_file. simpl. discriminate. Qed.

Lemma backup_name_not_session n : backup_name n ≠ session_file.
Proof. unfold backup_name, session_file. simpl. discriminate. Qed.

Lemma final_backup_name_not_temp t : final_backup_name t ≠ temp_file.
Proof. unfold final_backup_name, temp_file. simpl. discriminate. Qed.

Lemma final_backup_name_not_output t : final_backup_name t ≠ output_file.
Proof. unfold final_backup_name, output_file. simpl. discriminate. Qed.

Lemma load_after_save_continuous w products d :
  writable w temp_file = true →
  load_previous_progress w (save_continuous w products d)
  = if resume_answer w then products else [].
Proof.
  intros Ht. unfold load_previous_progress.
  rewrite save_continuous_temp by done. cbn [file_products].
  destruct products; [by destruct (resume_answer w) | done].
Qed.

(** X8.  A checkpoint can be resumed from: once [save_continuous] has
    written the temp file, [load_previous_progress] gives back the saved
    list when the user answers y, and the empty list otherwise.  This holds
    also when the numbered backup could not be written. *)
Theorem X8_checkpoint_resume_round_trip (w : World) (products : list Product)
    (d : Disk) :
  writable w temp_file = true →
  load_previous_progress w (save_continuous w products d)
  = if resume_answer w then products else [].
Proof. apply load_after_save_continuous. Qed.

Lemma X8_checkpoint_resume_round_trip_witness :
  writable (steady_world []) temp_file = true
  ∧ load_previous_progress (steady_world [])
      (save_continuous (steady_world []) small_checkpoint empty_disk)
    = small_checkpoint.
Proof.
  split; [reflexivity|].
  exact (X8_checkpoint_resume_round_trip (steady_world []) small_checkpoint
           empty_disk eq_refl).
Defined.

Lemma failed_write_at w name d :
  files (failed_write w name d) !! name
  = if truncates w name then Some Unreadable else files d !! name.
Proof.
  unfold failed_write. destruct (truncates w name); [|done].
  apply lookup_insert_eq.
Qed.

Lemma try_write_at w name data d :
  files (try_write w name data d) !! name
  = if writable w name then Some data
    else if truncates w name then Some Unreadable else files d !! name.
Proof.
  unfold try_write, write_file. destruct (writable w name); cbn [from_option].
  - apply lookup_insert_eq.
  - apply failed_write_at.
Qed.

(** X9.  When the temp file or the numbered backup cannot be written, the
    checkpoint goes to emergency_save_<time>.json in the reduced format, if
    that file can be written.  A write that failed in [open] leaves its
    file as it was; one that failed after the file had been opened leaves
    it cut short.  The numbered backup is not tried after a failed temp
    write.  A temp write that failed after opening the file has destroyed
    the previous temp checkpoint: the next start finds nothing to resume. *)
Theorem X9_checkpoint_falls_back_to_emergency_file (w : World)
    (products : list Product) (d : Disk) :
  writable w temp_file = false
  ∨ writable w (backup_name (length products)) = false →
  let d' := save_continuous w products d in
  files d' !! emergency_name (now w)
  = (if writable w (emergency_name (now w)) then Some (Fallback products)
     else if truncates w (emergency_name (now w)) then Some Unreadable
          else files d !! emergency_name (now w))
  ∧ files d' !! temp_file
    = (if writable w temp_file
       then Some (Checkpoint (now w) (length products) in_progress products)
       else if truncates w temp_file then Some Unreadable
            else files d !! temp_file)
  ∧ files d' !! backup_name (length products)
    = (if writable w temp_file && truncates w (backup_name (length products))
       then Some Unreadable
       else files d !! backup_name (length products))
  ∧ (writable w temp_file = false → truncates w temp_file = true →
     load_previous_progress w d' = []).
Proof.
  intros Hfail d'.
  assert (temp_file ≠ emergency_name (now w)) as Hne1
    by (intros H; symmetry in H; by apply emergency_name_not_temp in H).
  assert (backup_name (length products) ≠ emergency_name (now w)) as Hne2
    by (intros H; symmetry in H; by apply emergency_name_not_backup in H).
  assert (temp_file ≠ backup_name (length products)) as Hne3
    by (intros H; symmetry in H; by apply backup_name_not_temp in H).
  assert (files d' !! temp_file
    = (if writable w temp_file
       then Some (Checkpoint (now w) (length products) in_progress products)
       else if truncates w temp_file then Some Unreadable
            else files d !! temp_file)) as Htemp.
  { destruct (writable w temp_file) eqn:Ht;
      [subst d'; by apply save_continuous_temp|].
    subst d'. unfold save_continuous.
    rewrite (proj2 (write_file_refused w temp_file _ _) Ht).
    by rewrite try_write_lookup, failed_write_at. }
  split; [|split; [exact Htemp|split]].
  - subst d'. unfold save_continuous.
    destruct (write_file w temp_file _ _) as [d1|] eqn:E1.
    + apply write_file_written in E1 as (Ht & Hf1 & _).
      destruct Hfail as [Hfail|Hb]; [congruence|].
      rewrite (proj2 (write_file_refused w _ _ d1) Hb), try_write_at.
      rewrite failed_write_lookup, Hf1 by done.
      by rewrite lookup_insert_ne by done.
    + rewrite try_write_at. by rewrite failed_write_lookup by done.
  - subst d'. unfold save_continuous.
    destruct (write_file w temp_file _ _) as [d1|] eqn:E1.
    + apply write_file_written in E1 as (Ht & Hf1 & _).
      destruct Hfail as [Hfail|Hb]; [congruence|].
      rewrite (proj2 (write_file_refused w _ _ d1) Hb), Ht. cbn [andb].
      rewrite try_write_lookup, failed_write_at, Hf1 by done.
      by rewrite lookup_insert_ne by done.
    + apply write_file_refused in E1. rewrite E1. cbn [andb].
      rewrite try_write_lookup, failed_write_lookup by done. done.
  - intros Ht Htr. unfold load_previous_progress.
    by rewrite Htemp, Ht, Htr.
Qed.

Lemma X9_checkpoint_falls_back_to_emergency_file_witness :
  writable torn_temp_world temp_file = false
  ∧ load_previous_progress torn_temp_world small_resumed_disk = small_checkpoint
  ∧ files (save_continuous torn_temp_world small_checkpoint small_resumed_disk)
    !! "emergency_save_1700000000.json"
    = Some (Fallback small_checkpoint)
  ∧ files (save_continuous torn_temp_world small_checkpoint small_resumed_disk)
    !! temp_file = Some Unreadable
  ∧ load_previous_progress torn_temp_world
      (save_continuous torn_temp_world small_checkpoint small_resumed_disk)
    = [].
Proof.
  split; [reflexivity|]. split; [reflexivity|].
  destruct (X9_checkpoint_falls_back_to_emergency_file torn_temp_world
              small_checkpoint small_resumed_disk (or_introl eq_refl))
    as (Hem & Htemp & _ & Hlost).
  split; [exact Hem|]. split; [exact Htemp|]. exact (Hlost eq_refl eq_refl).
Defined.

Lemma written_failed_write w name d :
  ∃ l, written (failed_write w name d) = written d ++ l
       ∧ Forall (λ n, n = name) l.
Proof.
  unfold failed_write. destruct (truncates w name).
  - exists [name]. split; [done | by repeat constructor].
  - exists []. by rewrite app_nil_r.
Qed.

Lemma written_try_write w name data d :
  ∃ l, written (try_write w name data d) = written d ++ l
       ∧ Forall (λ n, n = name) l.
Proof.
  unfold try_write, write_file. destruct (writable w name); cbn [from_option].
  - exists [name]. split; [done | by repeat constructor].
  - apply written_failed_write.
Qed.

(** X10.  A checkpoint never touches the final artifact, the session file
    or the numbered backup of another total, whether its writes succeed or
    fail. *)
Theorem X10_checkpoint_leaves_other_files (w : World) (products : list Product)
    (d : Disk) :
  let d' := save_continuous w products d in
  files d' !! output_file = files d !! output_file
  ∧ files d' !! session_file = files d !! session_file
  ∧ (∀ n, n ≠ length products →
          files d' !! backup_name n = files d !! backup_name n)
  ∧ ∃ new_writes,
      written d' = written d ++ new_writes
      ∧ Forall (λ name, name = temp_file
                        ∨ name = backup_name (length products)
                        ∨ name = emergency_name (now w)) new_writes.
Proof.
  intros d'. subst d'. split; [apply save_continuous_output|]. split; [|split].
  - apply save_continuous_lookup.
    + done.
    + intros H. symmetry in H. by apply backup_name_not_session in H.
    + intros H. symmetry in H. by apply emergency_name_not_session in H.
  - intros n Hn. apply save_continuous_lookup.
    + apply backup_name_not_temp.
    + intros H. by apply backup_name_inj in H.
    + intros H. symmetry in H. by apply emergency_name_not_backup in H.
  - unfold save_continuous.
    destruct (write_file w temp_file _ _) as [d1|] eqn:E1.
    + apply write_file_written in E1 as (_ & _ & Hw1). cbn [written] in Hw1.
      destruct (write_file w (backup_name _) _ d1) as [d2|] eqn:E2.
      * apply write_file_written in E2 as (_ & _ & Hw2).
        exists [temp_file; backup_name (length products)].
        rewrite Hw2, Hw1, <- app_assoc. split; [done|].
        repeat constructor; tauto.
      * destruct (written_try_write w (emergency_name (now w))
                    (Fallback products)
                    (failed_write w (backup_name (length products)) d1))
          as (l2 & -> & Hl2).
        destruct (written_failed_write w (backup_name (length products)) d1)
          as (l1 & -> & Hl1).
        exists ([temp_file] ++ l1 ++ l2). rewrite Hw1, <- !app_assoc.
        split; [done|]. repeat apply Forall_app_2.
        -- repeat constructor; tauto.
        -- eapply Forall_impl; [exact Hl1|]. cbn beta. tauto.
        -- eapply Forall_impl; [exact Hl2|]. cbn beta. tauto.
    + destruct (written_try_write w (emergency_name (now w))
                  (Fallback products)
                  (failed_write w temp_file
                     {| files := files d; written := written d;
                        saves := saves d ++ [length products] |}))
        as (l2 & -> & Hl2).
      destruct (written_failed_write w temp_file
                  {| files := files d; written := written d;
                     saves := saves d ++ [length products] |})
        as (l1 & -> & Hl1).
      exists (l1 ++ l2). cbn [written]. rewrite <- !app_assoc.
      split; [done|]. apply Forall_app_2.
      * eapply Forall_impl; [exact Hl1|]. cbn beta. tauto.
      * eapply Forall_impl; [exact Hl2|]. cbn beta. tauto.
Qed.

Lemma X10_checkpoint_leaves_other_files_witness :
  5 ≠ length small_checkpoint
  ∧ files (save_continuous (steady_world []) small_checkpoint small_resumed_disk)
    !! backup_name 5
    = files small_resumed_disk !! backup_name 5.
Proof.
  assert (5 ≠ length small_checkpoint) as Hne by (cbn [length small_checkpoint]; lia).
  split; [exact Hne|].
  exact (proj1 (proj2 (proj2 (X10_checkpoint_leaves_other_files (steady_world [])
                                small_checkpoint small_resumed_disk))) 5 Hne).
Defined.

(** X11.  The final save writes the whole list with status [completed] to
    product_data.json; when that write raises, the list goes to
    final_backup_<time>.json in the reduced format, and product_data.json
    is left as it was or, if it had been opened, cut short.  Either way the
    temp file and the checkpoint log are left alone, so the run can still
    be resumed.  The interrupt handler is this save, and unlike [run] it
    also saves an empty list. *)
Theorem X11_final_save (w : World) (all_products : list Product) (d : Disk) :
  let d' := save_final_data w all_products d in
  files d' !! output_file
  = (if writable w output_file
     then Some (Checkpoint (now w) (length all_products) completed all_products)
     else if truncates w output_file then Some Unreadable
          else files d !! output_file)
  ∧ (writable w output_file = false →
     files d' !! final_backup_name (now w)
     = if writable w (final_backup_name (now w))
       then Some (Fallback all_products)
       else if truncates w (final_backup_name (now w)) then Some Unreadable
            else files d !! final_backup_name (now w))
  ∧ files d' !! temp_file = files d !! temp_file
  ∧ saves d' = saves d
  ∧ handle_interrupt w all_products d = d'
  ∧ (writable w output_file = true →
     files (handle_interrupt w [] d) !! output_file
     = Some (Checkpoint (now w) 0 completed [])).
Proof.
  intros d'. subst d'.
  assert (output_file ≠ final_backup_name (now w)) as Hne1
    by (intros H; symmetry in H; by apply final_backup_name_not_output in H).
  assert (temp_file ≠ final_backup_name (now w)) as Hne2
    by (intros H; symmetry in H; by apply final_backup_name_not_temp in H).
  assert (writable w output_file = true →
          files (handle_interrupt w [] d) !! output_file
          = Some (Checkpoint (now w) 0 completed [])) as Hempty.
  { intros Ho. unfold handle_interrupt, save_final_data, write_file.
    rewrite Ho. cbn [files]. apply lookup_insert_eq. }
  split; [|split; [|split; [|split; [|split; [done | exact Hempty]]]]];
    unfold save_final_data, write_file;
    destruct (writable w output_file) eqn:Ho; cbn [files saves].
  - apply lookup_insert_eq.
  - by rewrite try_write_lookup, failed_write_at by done.
  - done.
  - intros _. by rewrite try_write_at, failed_write_lookup by done.
  - by apply lookup_insert_ne.
  - by rewrite try_write_lookup, failed_write_lookup by done.
  - done.
  - by rewrite saves_try_write, saves_failed_write.
Qed.

Lemma X11_final_save_witness :
  writable locked_output_world output_file = false
  ∧ files (save_final_data locked_output_world small_checkpoint empty_disk)
    !! "final_backup_1700000000.json"
    = Some (Fallback small_checkpoint).
Proof.
  split; [reflexivity|].
  exact (proj1 (proj2 (X11_final_save locked_output_world small_checkpoint
                         empty_disk)) eq_refl).
Defined.

(** X12.  A saved session is accepted by the next [load_session] when it
    is at most 24 hours old and the browser context takes its cookies: one
    written now loads, one of exactly 86400 seconds still loads, an older
    one does not, and [add_cookies] raising refuses any.  Without a session
    file, or with a file of another shape, nothing loads. *)
Theorem X12_session_round_trip (w : World) (d : Disk) :
  (writable w session_file = true → add_cookies_raises w = false →
   load_session w (save_session w d) = true)
  ∧ (∀ timestamp,
       files d !! session_file = Some (Session timestamp) →
       (load_session w d = true
        ↔ (now w - timestamp ≤ 86400)%Z ∧ add_cookies_raises w = false))
  ∧ (files d !! session_file = None → load_session w d = false)
  ∧ (∀ f, files d !! session_file = Some f →
          (∀ timestamp, f ≠ Session timestamp) → load_session w d = false).
Proof.
  split; [|split; [|split]].
  - intros Hw Hc. unfold load_session, save_session.
    rewrite try_write_at, Hw, Z.sub_diag, Hc. done.
  - intros timestamp Hf. unfold load_session. rewrite Hf.
    destruct (86400 <? now w - timestamp)%Z eqn:E.
    + apply Z.ltb_lt in E. split; [done | intros [? _]; lia].
    + apply Z.ltb_ge in E. rewrite negb_true_iff. by split; [|intros [_ ?]].
  - intros Hf. unfold load_session. by rewrite Hf.
  - intros f Hf Hshape. unfold load_session. rewrite Hf.
    destruct f as [| |timestamp|]; try done. by destruct (Hshape timestamp).
Qed.

Lemma X12_session_round_trip_witness :
  writable (steady_world []) session_file = true
  ∧ add_cookies_raises (steady_world []) = false
  ∧ load_session (steady_world []) (save_session (steady_world []) empty_disk)
    = true.
Proof.
  split; [reflexivity|]. split; [reflexivity|].
  exact (proj1 (X12_session_round_trip (steady_world []) empty_disk)
           eq_refl eq_refl).
Defined.

(** ** The loop as a whole *)

(** What one attempt does to the result list, the read counter and the
    checkpoint log. *)
Lemma attempt_step w s c flow s' c' :
  attempt w s c = (flow, s', c') →
  ∃ new,
    all_products s' = all_products s ++ new
    ∧ (∀ p, p ∈ new → p ∈ new_batch w s)
    ∧ extractions s ≤ extractions s' ≤ S (extractions s)
    ∧ (saves (disk s') = saves (disk s)
       ∨ saves (disk s') = saves (disk s) ++ [length (all_products s')]).
Proof.
  destruct (scroll_raises w (S (total_attempts c))) eqn:E.
  - rewrite attempt_raised by done. intros [= _ <- _]. exists [].
    rewrite app_nil_r. split; [done|]. split; [by intros ? ?%elem_of_nil|].
    split; [lia | by left].
  - rewrite attempt_scrolled by done. intros [= _ <- _].
    exists (new_unique w s). cbn [all_products extractions disk].
    split; [done|]. split; [|split; [lia|]].
    + intros p Hp. by apply (filterNew_new (existing_ids_cache s) (new_batch w s)).
    + destruct (checkpoint_due _ _); [right; apply saves_save_continuous | by left].
Qed.

Lemma loop_entry_all_products w loaded d :
  ∃ initial,
    all_products (loop_entry w loaded d) = loaded ++ initial
    ∧ (∀ p, p ∈ initial → p ∈ extract_current_page_data (page w 0))
    ∧ extractions (loop_entry w loaded d) ≤ 1.
Proof.
  unfold loop_entry. destruct (length loaded =? 0).
  - eexists. cbn [all_products extractions]. split; [done|]. split; [done | lia].
  - exists []. cbn [all_products extractions]. rewrite app_nil_r.
    split; [done|]. split; [by intros ? ?%elem_of_nil | lia].
Qed.

Lemma visits_all_products w s0 c0 flow s c :
  visits w s0 c0 flow s c →
  ∃ added,
    all_products s = all_products s0 ++ added
    ∧ ∀ p, p ∈ added → ∃ k, p ∈ extract_current_page_data (page w k).
Proof.
  induction 1 as [|s c flow s' c' _ (added & Hall & Hfrom) _ Hat].
  - exists []. rewrite app_nil_r. split; [done | by intros ? ?%elem_of_nil].
  - apply attempt_step in Hat as (new & Hnew & Hin & _).
    exists (added ++ new). rewrite Hnew, Hall, app_assoc. split; [done|].
    intros p [Hp|Hp]%elem_of_app; [by apply Hfrom|].
    exists (extractions s). by apply Hin.
Qed.

(** X13.  The loop only appends.  Every state it passes through holds the
    entry list as a prefix, and the list [extract_product_data] returns
    begins with the records loaded from the checkpoint, in their order:
    resuming never drops or reorders what had been saved. *)
Theorem X13_result_extends_loaded_list (w : World) (d : Disk) :
  (∀ flow s c,
     visits w (loop_entry w (load_previous_progress w d) d) (mkCounters 0 0)
            flow s c →
     load_previous_progress w d `prefix_of` all_products s)
  ∧ (∀ fuel ps d',
       extract_product_data fuel w d = Some (ps, d') →
       load_previous_progress w d `prefix_of` ps).
Proof.
  assert (∀ flow s c,
     visits w (loop_entry w (load_previous_progress w d) d) (mkCounters 0 0)
            flow s c →
     load_previous_progress w d `prefix_of` all_products s) as Hloop.
  { intros flow s c (added & -> & _)%visits_all_products.
    destruct (loop_entry_all_products w (load_previous_progress w d) d)
      as (initial & -> & _).
    rewrite <- app_assoc. by eexists. }
  split; [exact Hloop|]. intros fuel ps d' Hret.
  destruct (find_scrollable_table_container w) eqn:Hc.
  - apply extract_product_data_visits in Hret as (flow & s & c & Hv & ->); [|done].
    by eapply Hloop.
  - unfold extract_product_data in Hret. rewrite Hc in Hret.
    by injection Hret as <- _.
Qed.

Lemma X13_result_extends_loaded_list_witness :
  load_previous_progress (steady_world distinct_rows) small_resumed_disk
  = small_checkpoint
  ∧ ∃ ps d',
      extract_product_data max_attempts (steady_world distinct_rows)
        small_resumed_disk = Some (ps, d')
      ∧ small_checkpoint `prefix_of` ps.
Proof.
  split; [reflexivity|].
  destruct (extract_product_data max_attempts (steady_world distinct_rows)
              small_resumed_disk) as [[ps d']|] eqn:Hret;
    [|by vm_compute in Hret].
  exists ps, d'. split; [done|].
  exact (proj2 (X13_result_extends_loaded_list (steady_world distinct_rows)
                  small_resumed_disk) max_attempts ps d' Hret).
Defined.

(** X14.  Nothing is made up: every record of the returned list was loaded
    from the checkpoint or was shown by the table at one of the reads.  So
    when the loaded records each have an id or a sku (on a fresh start
    there are none), every returned record has one. *)
Theorem X14_result_comes_from_checkpoint_or_page (fuel : nat) (w : World)
    (d : Disk) (ps : list Product) (d' : Disk) :
  extract_product_data fuel w d = Some (ps, d') →
  (∀ p, p ∈ ps →
        p ∈ load_previous_progress w d
        ∨ ∃ k, p ∈ extract_current_page_data (page w k))
  ∧ ((∀ p, p ∈ load_previous_progress w d →
           truthy (p_id p) = true ∨ truthy (p_sku p) = true) →
     ∀ p, p ∈ ps → truthy (p_id p) = true ∨ truthy (p_sku p) = true).
Proof.
  intros Hret.
  assert (∀ p, p ∈ ps →
        p ∈ load_previous_progress w d
        ∨ ∃ k, p ∈ extract_current_page_data (page w k)) as Hfrom.
  { destruct (find_scrollable_table_container w) eqn:Hc.
    - apply extract_product_data_visits in Hret as (flow & s & c & Hv & ->);
        [|done].
      apply visits_all_products in Hv as (added & -> & Hadded).
      destruct (loop_entry_all_products w (load_previous_progress w d) d)
        as (initial & -> & Hinitial & _).
      intros p [[Hp|Hp]%elem_of_app|Hp]%elem_of_app; [by left | | by right; apply Hadded].
      right. exists 0. by apply Hinitial.
    - unfold extract_product_data in Hret. rewrite Hc in Hret.
      injection Hret as <- _. by left. }
  split; [exact Hfrom|]. intros Hvalid p Hp.
  destruct (Hfrom p Hp) as [Hl|[k Hk]]; [by apply Hvalid|].
  apply extract_current_page_data_valid in Hk. by apply orb_true_iff.
Qed.

Lemma X14_result_comes_from_checkpoint_or_page_witness :
  ∃ d',
    extract_product_data max_attempts (steady_world distinct_rows) empty_disk
    = Some (small_checkpoint, d')
    ∧ ∀ p, p ∈ small_checkpoint →
           truthy (p_id p) = true ∨ truthy (p_sku p) = true.
Proof.
  eexists. split; [vm_compute; reflexivity|].
  eapply (proj2 (X14_result_comes_from_checkpoint_or_page max_attempts
                   (steady_world distinct_rows) empty_disk _ _
                   ltac:(vm_compute; reflexivity))).
  intros p Hp. by apply elem_of_nil in Hp.
Defined.

(** X15.  However the loop is left, a non-empty returned list has just
    been written to the temp file as an [in_progress] checkpoint, so the
    next start can resume with exactly that list. *)
Theorem X15_returned_list_is_checkpointed (fuel : nat) (w : World) (d : Disk)
    (ps : list Product) (d' : Disk) :
  find_scrollable_table_container w = true →
  writable w temp_file = true →
  extract_product_data fuel w d = Some (ps, d') →
  ps ≠ [] →
  files d' !! temp_file = Some (Checkpoint (now w) (length ps) in_progress ps)
  ∧ load_previous_progress w d' = if resume_answer w then ps else [].
Proof.
  intros Hc Ht Hret Hps.
  destruct (extract_product_data_last_save _ _ _ _ _ Hc Hret Hps) as [d0 ->].
  split; [by apply save_continuous_temp | by apply load_after_save_continuous].
Qed.

Lemma X15_returned_list_is_checkpointed_witness :
  ∃ d',
    extract_product_data max_attempts (steady_world distinct_rows) empty_disk
    = Some (small_checkpoint, d')
    ∧ files d' !! temp_file
      = Some (Checkpoint 1700000000 2 in_progress small_checkpoint).
Proof.
  destruct (extract_product_data max_attempts (steady_world distinct_rows)
              empty_disk) as [[ps d']|] eqn:Hret; [|by vm_compute in Hret].
  assert (ps = small_checkpoint) as Hps
    by (vm_compute in Hret; by injection Hret as <- _).
  subst ps. exists d'. split; [done|].
  exact (proj1 (X15_returned_list_is_checkpointed max_attempts
                  (steady_world distinct_rows) empty_disk small_checkpoint d'
                  eq_refl eq_refl Hret ltac:(done))).
Defined.

(** [run] answers [True] only after an extraction that returned a
    non-empty list, and then ends with the final save. *)
Lemma run_true_inv fuel w d d' :
  run fuel w d = Some (true, d') →
  ∃ d1 ps d2,
    reaches_extraction w d = Some d1
    ∧ extract_product_data fuel w d1 = Some (ps, d2)
    ∧ ps ≠ []
    ∧ d' = save_final_data w ps d2.
Proof.
  destruct (reaches_extraction w d) as [d1|] eqn:Hreach.
  - rewrite (run_after_extraction _ _ _ _ Hreach).
    destruct (extract_product_data fuel w d1) as [[ps d2]|] eqn:Hret; [|done].
    destruct ps as [|p ps]; [done|]. intros [= <-]. by exists d1, (p :: ps), d2.
  - unfold reaches_extraction in Hreach. unfold run.
    destruct (startup_raises w); [done|].
    destruct (launch_challenge w), (navigate_to_product_table w);
      cbn [andb negb] in *;
      destruct (negb (load_session w d) || negb (check_authentication w));
      try done; destruct (authenticate w); done.
Qed.

(** X16.  After a run that reports success, with the temp file and the
    final artifact writable, product_data.json holds a non-empty list with
    status [completed] and temp_products.json holds the same list: the
    resumable checkpoint and the final artifact agree. *)
Theorem X16_successful_run_artifacts_agree (fuel : nat) (w : World) (d d' : Disk) :
  run fuel w d = Some (true, d') →
  writable w temp_file = true →
  writable w output_file = true →
  ∃ ps,
    ps ≠ []
    ∧ files d' !! output_file
      = Some (Checkpoint (now w) (length ps) completed ps)
    ∧ file_products <$> files d' !! temp_file = Some ps.
Proof.
  intros (d1 & ps & d2 & Hreach & Hret & Hps & ->)%run_true_inv Ht Ho.
  exists ps. split; [done|].
  unfold save_final_data, write_file. rewrite Ho. cbn [files].
  rewrite lookup_insert_eq, lookup_insert_ne by done. split; [done|].
  destruct (find_scrollable_table_container w) eqn:Hc.
  - destruct (extract_product_data_last_save _ _ _ _ _ Hc Hret Hps) as [d0 ->].
    by rewrite save_continuous_temp.
  - unfold extract_product_data in Hret. rewrite Hc in Hret.
    injection Hret as <- <-. unfold load_previous_progress in *.
    destruct (files d1 !! temp_file) as [f|]; [|done]. cbn [fmap option_fmap option_map].
    destruct (file_products f); [done|]. by destruct (resume_answer w).
Qed.

Lemma X16_successful_run_artifacts_agree_witness :
  ∃ d',
    run max_attempts (steady_world distinct_rows) empty_disk = Some (true, d')
    ∧ file_products <$> files d' !! output_file = Some small_checkpoint
    ∧ file_products <$> files d' !! temp_file = Some small_checkpoint.
Proof.
  eexists. split; [vm_compute; reflexivity|].
  edestruct (X16_successful_run_artifacts_agree max_attempts
               (steady_world distinct_rows) empty_disk)
    as (ps & _ & Hout & Htemp); [vm_compute; reflexivity | done | done |].
  split; vm_compute; reflexivity.
Defined.

(** X17.  A run that gives up before the extraction (start-up raised, or
    signing in, launching the challenge or finding the table failed)
    reports failure and has written at most the session file. *)
Theorem X17_early_failure_writes_only_session (fuel : nat) (w : World) (d : Disk) :
  reaches_extraction w d = None →
  ∃ d', run fuel w d = Some (false, d')
        ∧ (∀ name, name ≠ session_file → files d' !! name = files d !! name)
        ∧ saves d' = saves d.
Proof.
  unfold reaches_extraction, run.
  destruct (startup_raises w); [by eexists|].
  destruct (negb (load_session w d) || negb (check_authentication w)).
  - destruct (authenticate w); cbn [negb].
    + destruct (launch_challenge w); cbn [andb negb].
      * destruct (navigate_to_product_table w); cbn [negb]; [done|].
        intros _. eexists. split; [done|]. split; [|apply saves_try_write].
        intros name Hne. by apply try_write_lookup.
      * intros _. eexists. split; [done|]. split; [|apply saves_try_write].
        intros name Hne. by apply try_write_lookup.
    + intros _. by eexists.
  - destruct (launch_challenge w); cbn [andb negb].
    + destruct (navigate_to_product_table w); cbn [negb]; [done|]. by eexists.
    + by eexists.
Qed.

Lemma X17_early_failure_writes_only_session_witness :
  reaches_extraction failed_login_world empty_disk = None
  ∧ run max_attempts failed_login_world empty_disk = Some (false, empty_disk).
Proof.
  split; [reflexivity|].
  destruct (X17_early_failure_writes_only_session max_attempts
              failed_login_world empty_disk eq_refl) as (d' & Hrun & _).
  rewrite Hrun. f_equal. vm_compute in Hrun. by injection Hrun as <-.
Defined.

Lemma visits_counts w s0 c0 flow s c :
  visits w s0 c0 flow s c →
  extractions s0 ≤ extractions s
  ∧ extractions s + total_attempts c0 ≤ extractions s0 + total_attempts c
  ∧ length (all_products s0) ≤ length (all_products s).
Proof.
  induction 1 as [|s c flow s' c' _ (IH1 & IH2 & IH3) _ Hat]; [lia|].
  pose proof (attempt_total_attempts _ _ _ _ _ _ Hat) as Htotal.
  apply attempt_step in Hat as (new & Hall & _ & Hreads & _).
  rewrite Hall, length_app. lia.
Qed.

(** X18.  The table is read at most once per attempt, and once more for
    the initial extraction of a fresh start: a run reads it at most 101
    times. *)
Theorem X18_page_read_at_most_once_per_attempt (fuel : nat) (w : World)
    (loaded : list Product) (d : Disk) (flow : Flow) (s : Scraper) (c : Counters) :
  while_loop fuel w (loop_entry w loaded d) (mkCounters 0 0) = Some (flow, s, c) →
  extractions s ≤ 1 + total_attempts c
  ∧ extractions s ≤ 1 + max_attempts.
Proof.
  intros Hloop.
  assert (total_attempts c ≤ max_attempts) as Hmax.
  { edestruct (while_loop_counters fuel w (loop_entry w loaded d)
                 (mkCounters 0 0)) as (_ & Hmax & _); [| |exact Hloop|exact Hmax];
      cbn [consecutive_no_new_data total_attempts]; lia. }
  eapply while_loop_visits in Hloop; [|constructor].
  apply visits_counts in Hloop as (_ & Hreads & _).
  destruct (loop_entry_all_products w loaded d) as (_ & _ & _ & Hentry).
  cbn [total_attempts] in Hreads. lia.
Qed.

Lemma X18_page_read_at_most_once_per_attempt_witness :
  ∃ s c,
    while_loop max_attempts (steady_world distinct_rows)
      (loop_entry (steady_world distinct_rows) [] empty_disk) (mkCounters 0 0)
    = Some (Continue, s, c)
    ∧ extractions s ≤ 1 + total_attempts c.
Proof.
  eexists _, _. split; [vm_compute; reflexivity|].
  refine (proj1 (X18_page_read_at_most_once_per_attempt max_attempts
                   (steady_world distinct_rows) [] empty_disk Continue _ _ _)).
  vm_compute. reflexivity.
Defined.




(** ** Locating the scroll container *)

Lemma scan_found elements e :
  Dom.scan elements = Dom.Found e →
  Dom.hasVerticalScroll e = true
  ∧ ∃ before after,
      elements = (Some <$> before) ++ Some e :: after
      ∧ Forall (λ x, Dom.hasVerticalScroll x = false) before.
Proof.
  induction elements as [|[x|] rest IH]; simpl; [done| |done].
  destruct (Dom.hasVerticalScroll x) eqn:Hx.
  - intros [= <-]. split; [done|]. by exists [], rest.
  - intros (He & before & after & -> & Hbefore)%IH. split; [done|].
    exists (x :: before), after. split; [done | by constructor].
Qed.

Lemma scan_not_found elements :
  (∀ e, Dom.scan elements ≠ Dom.Found e) ↔
  ∀ before e after,
    elements = (Some <$> before) ++ Some e :: after →
    Dom.hasVerticalScroll e = true →
    Exists (λ x, Dom.hasVerticalScroll x = true) before.
Proof.
  split.
  - intros Hnone before. revert elements Hnone.
    induction before as [|x before IH]; intros elements Hnone e after -> He.
    + exfalso. apply (Hnone e). simpl. by rewrite He.
    + simpl in Hnone. destruct (Dom.hasVerticalScroll x) eqn:Hx; [by left|].
      right. by eapply IH.
  - intros Hall e (He & before & after & Heq & Hbefore)%scan_found.
    specialize (Hall before e after Heq He).
    apply Exists_exists in Hall as (x & Hin & Hx).
    rewrite Forall_forall in Hbefore. apply Hbefore in Hin. congruence.
Qed.

Lemma probe_found doc selectors e :
  Dom.probe doc selectors = Some e →
  ∃ selector elements,
    selector ∈ selectors ∧ doc selector = Some elements
    ∧ Dom.scan elements = Dom.Found e.
Proof.
  induction selectors as [|selector rest IH]; simpl; [done|].
  destruct (doc selector) as [elements|] eqn:Hdoc.
  - destruct (Dom.scan elements) as [x| |] eqn:Hscan.
    + intros [= <-]. exists selector, elements. split; [left | done].
    + intros (sel & els & ? & ?)%IH. exists sel, els. split; [by right | done].
    + intros (sel & els & ? & ?)%IH. exists sel, els. split; [by right | done].
  - intros (sel & els & ? & ?)%IH. exists sel, els. split; [by right | done].
Qed.

Lemma probe_none doc selectors :
  Dom.probe doc selectors = None ↔
  ∀ selector elements e,
    selector ∈ selectors → doc selector = Some elements →
    Dom.scan elements ≠ Dom.Found e.
Proof.
  induction selectors as [|selector rest IH]; simpl.
  - split; [|done]. by intros _ ? ? ? ?%elem_of_nil.
  - destruct (doc selector) as [elements|] eqn:Hdoc.
    + destruct (Dom.scan elements) as [x| |] eqn:Hscan.
      * split; [done|]. intros H. exfalso.
        by apply (H selector elements x); [left| |].
      * rewrite IH. split.
        -- intros H sel els e [->|Hin]%elem_of_cons Hsel; [congruence|].
           by eapply H.
        -- intros H sel els e Hin. apply H. by right.
      * rewrite IH. split.
        -- intros H sel els e [->|Hin]%elem_of_cons Hsel; [congruence|].
           by eapply H.
        -- intros H sel els e Hin. apply H. by right.
    + rewrite IH. split.
      * intros H sel els e [->|Hin]%elem_of_cons Hsel; [congruence|].
        by eapply H.
      * intros H sel els e Hin. apply H. by right.
Qed.

(** X20.  An element returned as scroll container has more content height
    than visible height and is matched by one of the seven candidate
    selectors, with no raising and no scrolling element before it under
    that selector.  The search comes back empty exactly when, under every
    candidate selector whose query succeeds, each element that scrolls has
    an element that raises somewhere before it. *)
Theorem X20_container_search (doc : Dom.Document) :
  (∀ e,
     Dom.find_scrollable_table_container doc = Some e →
     (Dom.clientHeight e < Dom.scrollHeight e)%Z
     ∧ ∃ selector before after,
         selector ∈ Dom.container_selectors
         ∧ doc selector = Some ((Some <$> before) ++ Some e :: after)
         ∧ Forall (λ x, (Dom.scrollHeight x ≤ Dom.clientHeight x)%Z) before)
  ∧ (Dom.find_scrollable_table_container doc = None ↔
     ∀ selector elements e,
       selector ∈ Dom.container_selectors →
       doc selector = Some elements →
       Dom.scan elements ≠ Dom.Found e).
Proof.
  split; [|apply probe_none].
  intros e (selector & elements & Hin & Hdoc & Hscan)%probe_found.
  apply scan_found in Hscan as (He & before & after & -> & Hbefore).
  split; [by apply Z.ltb_lt|].
  exists selector, before, after. split; [done|]. split; [done|].
  eapply Forall_impl; [exact Hbefore|]. intros x. by apply Z.ltb_ge.
Qed.

Lemma X20_container_search_witness :
  Dom.find_scrollable_table_container sample_document
  = Some (Dom.mkElement 4000 600)
  ∧ (Dom.clientHeight (Dom.mkElement 4000 600)
     < Dom.scrollHeight (Dom.mkElement 4000 600))%Z.
Proof.
  assert (Dom.find_scrollable_table_container sample_document
          = Some (Dom.mkElement 4000 600)) as Hfound by reflexivity.
  split; [exact Hfound|].
  exact (proj1 (proj1 (X20_container_search sample_document) _ Hfound)).
Defined.

(** X21.  An element whose measurement raises ends the search under its
    selector: the elements after it are not looked at, even if one of them
    scrolls, and the search goes on with the next selector.  The same holds
    for a selector whose query raises. *)
Theorem X21_raising_element_hides_the_rest (doc : Dom.Document)
    (selector : string) (rest : list string) :
  (∀ before after,
     doc selector = Some ((Some <$> before) ++ None :: after) →
     Forall (λ x, (Dom.scrollHeight x ≤ Dom.clientHeight x)%Z) before →
     Dom.probe doc (selector :: rest) = Dom.probe doc rest)
  ∧ (doc selector = None →
     Dom.probe doc (selector :: rest) = Dom.probe doc rest).
Proof.
  split.
  - intros before after Hdoc Hbefore. cbn [Dom.probe]. rewrite Hdoc.
    assert (Dom.scan ((Some <$> before) ++ None :: after) = Dom.Raised) as ->;
      [|done].
    clear Hdoc. induction Hbefore as [|x before Hx _ IH]; [done|].
    cbn [fmap list_fmap app Dom.scan]. unfold Dom.hasVerticalScroll at 1.
    rewrite (proj2 (Z.ltb_ge _ _) Hx). exact IH.
  - intros Hdoc. cbn [Dom.probe]. by rewrite Hdoc.
Qed.

Lemma X21_raising_element_hides_the_rest_witness :
  sample_document ("div[style*=" +:+ quoted "overflow" +:+ "]")
  = Some ((Some <$> []) ++ None :: [Some (Dom.mkElement 900 300)])
  ∧ Dom.find_scrollable_table_container sample_document
    = Dom.probe sample_document (tail Dom.container_selectors).
Proof.
  split; [reflexivity|].
  exact (proj1 (X21_raising_element_hides_the_rest sample_document
                  ("div[style*=" +:+ quoted "overflow" +:+ "]")
                  (tail Dom.container_selectors))
           [] [Some (Dom.mkElement 900 300)] eq_refl (Forall_nil_2 _)).
Defined.

(** ** Recognising a signed-in page *)

Lemma prefix_spec (pattern text : string) :
  String.prefix pattern text = true ↔ ∃ after, text = pattern +:+ after.
Proof.
  revert text. induction pattern as [|a pattern IH]; intros text.
  - destruct text; simpl; (split; [by eexists | done]).
  - destruct text as [|b text]; simpl.
    + split; [done | by intros [after ?]].
    + destruct (Ascii.ascii_dec a b) as [->|Hne].
      * rewrite IH. split.
        -- intros [after ->]. by exists after.
        -- intros [after Heq]. exists after.
           change (String b text = String b (pattern +:+ after)) in Heq.
           by injection Heq.
      * split; [done|]. intros [after Heq].
        change (String b text = String a (pattern +:+ after)) in Heq.
        injection Heq as -> _. done.
Qed.

(** [contains] is the substring test. *)
Lemma contains_spec (pattern text : string) :
  contains pattern text = true ↔
  ∃ before after, text = before +:+ pattern +:+ after.
Proof.
  induction text as [|b text IH]; cbn [contains].
  - rewrite orb_false_r, prefix_spec. split.
    + intros [after Heq]. by exists "", after.
    + intros ([|c before] & after & Heq); [by exists after | done].
  - rewrite orb_true_iff, prefix_spec, IH. split.
    + intros [[after Heq]|(before & after & Heq)].
      * by exists "", after.
      * exists (String b before), after. by rewrite Heq.
    + intros ([|c before] & after & Heq).
      * left. by exists after.
      * right. exists before, after.
        change (String b text = String c (before +:+ pattern +:+ after)) in Heq.
        by injection Heq.
Qed.

(** X22.  [check_authentication] answers [False] only when the page
    loaded, its address contains neither /instructions nor /challenge, and
    one of the five login-form selectors is found.  So an address that
    contains /challenge or /instructions anywhere counts as signed in even
    with a login form on the page, and so does a page whose load wait
    raises. *)
Theorem X22_signed_in_test (p : Auth.Page) :
  (Auth.check_authentication p = false ↔
   Auth.load_state_raises p = false
   ∧ (∀ before after, Auth.url p ≠ before +:+ "/instructions" +:+ after)
   ∧ (∀ before after, Auth.url p ≠ before +:+ "/challenge" +:+ after)
   ∧ ∃ selector, selector ∈ Auth.login_form_selectors
                 ∧ Auth.selector_found p selector = true)
  ∧ (∀ before after,
       Auth.url p = before +:+ "/challenge" +:+ after
       ∨ Auth.url p = before +:+ "/instructions" +:+ after →
       Auth.check_authentication p = true).
Proof.
  assert (∀ pattern, contains pattern (Auth.url p) = false ↔
            ∀ before after, Auth.url p ≠ before +:+ pattern +:+ after) as Hno.
  { intros pattern. rewrite <- not_true_iff_false, contains_spec. split.
    - intros H before after Heq. apply H. by exists before, after.
    - intros H (before & after & Heq). by apply (H before after). }
  assert (Auth.check_authentication p = false ↔
   Auth.load_state_raises p = false
   ∧ (∀ before after, Auth.url p ≠ before +:+ "/instructions" +:+ after)
   ∧ (∀ before after, Auth.url p ≠ before +:+ "/challenge" +:+ after)
   ∧ ∃ selector, selector ∈ Auth.login_form_selectors
                 ∧ Auth.selector_found p selector = true) as Hiff.
  { rewrite <- !Hno. unfold Auth.check_authentication.
    destruct (Auth.load_state_raises p); [by split; [|intros [? _]]|].
    destruct (contains "/instructions" (Auth.url p));
      [by split; [|intros (_ & ? & _)]|].
    destruct (contains "/challenge" (Auth.url p));
      [by split; [|intros (_ & _ & ? & _)]|].
    rewrite negb_false_iff, existsb_exists.
    setoid_rewrite <- list_elem_of_In. split; [by intros H | by intros (_ & _ & _ & H)]. }
  split; [exact Hiff|].
  intros before after Hurl. apply not_false_iff_true. intros Hfalse.
  apply Hiff in Hfalse as (_ & Hi & Hc & _).
  destruct Hurl as [Hurl|Hurl]; [by apply (Hc before after) | by apply (Hi before after)].
Qed.

Lemma X22_signed_in_test_witness :
  Auth.url redirect_login_page
  = "https://hiring.idenhq.com/login?next=" +:+ "/challenge" +:+ ""
  ∧ Auth.selector_found redirect_login_page
      ("input[type=" +:+ quoted "password" +:+ "]") = true
  ∧ Auth.check_authentication redirect_login_page = true.
Proof.
  split; [reflexivity|]. split; [reflexivity|].
  exact (proj2 (X22_signed_in_test redirect_login_page)
           "https://hiring.idenhq.com/login?next=" "" (or_introl eq_refl)).
Defined.
